(** * iso_diag_BE: equilibrium fractionation, disequilibrium and mixing curves

    A shallow embedding of [iso_diag_BE.py].

    The module [Exact] reads the numeric formulas over the real numbers
    (exact arithmetic): [aeq], [get_dDdeq], NumPy's [linspace] with its
    default of 50 samples, and [calc_mixing].

    The module [Py] reads the same code operationally: IEEE binary64 values,
    the distinction between Python floats and NumPy float64 scalars (which
    decides whether a division by zero raises), exceptions as an error
    result, and the plot axis as explicit state. *)

From Stdlib Require Import String.
From Stdlib Require Import Reals Lra ZArith List Lia Bool.
From Stdlib Require Import Uint63 Floats.
Import ListNotations.

(** ** Overwriting the last element of a sequence ([y[-1] = x]) *)

Definition set_last {A : Type} (l : list A) (x : A) : list A :=
  match l with
  | [] => []
  | _ => removelast l ++ [x]
  end.

Lemma set_last_length {A : Type} (l : list A) (x : A) :
  length (set_last l x) = length l.
Proof.
  destruct l as [|a l]; [reflexivity|].
  unfold set_last. rewrite length_app, removelast_firstn_len, length_firstn.
  simpl length. lia.
Qed.

Module Exact.

Open Scope R_scope.

(** [np.linspace(start, stop)] with NumPy's defaults [num = 50] and
    [endpoint = True]: [arange(0, num) * step + start] with
    [step = (stop - start) / (num - 1)], the last sample then overwritten
    with [stop]. *)
Definition num : nat := 50.

Definition linspace (start stop : R) : list R :=
  let step := (stop - start) / INR (num - 1) in
  set_last (map (fun i => INR i * step + start) (seq 0 num)) stop.

(** def aeq(T): return 1 / np.exp( 24844 / T**2 - 76.248 / T + 0.05261 ) *)
Definition aeq (T : R) : R :=
  1 / exp (24844 / T ^ 2 - 76.248 / T + 0.05261).

(** def get_dDdeq(T, dDv, dDr) *)
Definition get_dDdeq (T dDv dDr : R) : R :=
  let dDeq := aeq (T + 273.15) * (dDr + 1000) - 1000 in
  let dDdeq := dDv - dDeq in
  dDdeq.

(** def calc_mixing(p0, p1, l_log = True) *)
Definition calc_mixing (p0 p1 : R * R) (l_log : bool) : list R * list R :=
  let '(q0, dD0) := p0 in
  let '(q1, dD1) := p1 in
  let q := if l_log
           then map exp (linspace (ln q0) (ln q1))
           else linspace q0 q1 in
  let dDf := (dD1 * q1 - dD0 * q0) / (q1 - q0) in
  let dD := map (fun qi => q0 * (dD0 - dDf) * (1 / qi) + dDf) q in
  (q, dD).

(** ** The samples of [linspace] *)

Lemma nth_map_seq (f : nat -> R) (n i : nat) (d : R) :
  (i < n)%nat -> nth i (map f (seq 0 n)) d = f i.
Proof.
  intros Hi.
  rewrite (nth_indep _ d (f 0%nat)) by (rewrite length_map, length_seq; lia).
  rewrite (map_nth f). now rewrite seq_nth.
Qed.

Lemma linspace_length (a b : R) : length (linspace a b) = num.
Proof.
  unfold linspace. now rewrite set_last_length, length_map, length_seq.
Qed.

Lemma linspace_unfold (a b : R) :
  linspace a b =
  map (fun i => INR i * ((b - a) / 49) + a) (seq 0 49) ++ [b].
Proof.
  unfold linspace, num.
  replace (INR (50 - 1)) with 49 by (simpl; lra).
  change (seq 0 50) with (seq 0 (49 + 1)).
  rewrite seq_app, map_app. simpl seq at 2.
  cbn [map]. unfold set_last.
  destruct (map _ (seq 0 49) ++ _) eqn:E.
  - apply (f_equal (@length R)) in E. rewrite length_app in E. simpl in E. lia.
  - rewrite <- E. now rewrite removelast_last.
Qed.

(** Every sample, the overwritten last one included, is
    [start + i * (stop - start) / 49]. *)
Lemma linspace_nth (a b : R) (i : nat) :
  (i < 50)%nat -> nth i (linspace a b) 0 = a + INR i * ((b - a) / 49).
Proof.
  intros Hi. rewrite linspace_unfold.
  destruct (Nat.eq_dec i 49) as [->|Hne].
  - rewrite app_nth2; rewrite length_map, length_seq; [|lia].
    replace (49 - 49)%nat with 0%nat by lia. cbn [nth].
    replace (INR 49) with 49 by (simpl; lra). field.
  - rewrite app_nth1 by (rewrite length_map, length_seq; lia).
    rewrite nth_map_seq by lia. lra.
Qed.

Lemma nth_map_lt (f : R -> R) (l : list R) (i : nat) :
  (i < length l)%nat -> nth i (map f l) 0 = f (nth i l 0).
Proof.
  intros Hi.
  rewrite (nth_indep _ 0 (f 0)) by (now rewrite length_map).
  apply map_nth.
Qed.

(** ** The samples of [calc_mixing] *)

Section Mixing.

Variables q0 dD0 q1 dD1 : R.

Let dDf := (dD1 * q1 - dD0 * q0) / (q1 - q0).

Lemma calc_mixing_q_log (i : nat) :
  (i < 50)%nat ->
  nth i (fst (calc_mixing (q0, dD0) (q1, dD1) true)) 0 =
  exp (ln q0 + INR i * ((ln q1 - ln q0) / 49)).
Proof.
  intros Hi. cbn [calc_mixing fst].
  rewrite nth_map_lt by (rewrite linspace_length; exact Hi).
  now rewrite linspace_nth.
Qed.

Lemma calc_mixing_q_lin (i : nat) :
  (i < 50)%nat ->
  nth i (fst (calc_mixing (q0, dD0) (q1, dD1) false)) 0 =
  q0 + INR i * ((q1 - q0) / 49).
Proof.
  intros Hi. cbn [calc_mixing fst]. now apply linspace_nth.
Qed.

Lemma calc_mixing_q_length (l_log : bool) :
  length (fst (calc_mixing (q0, dD0) (q1, dD1) l_log)) = 50%nat.
Proof.
  cbn [calc_mixing fst]. destruct l_log.
  - rewrite length_map. apply linspace_length.
  - apply linspace_length.
Qed.

Lemma calc_mixing_dD_length (l_log : bool) :
  length (snd (calc_mixing (q0, dD0) (q1, dD1) l_log)) = 50%nat.
Proof.
  cbn [calc_mixing snd]. rewrite length_map.
  exact (calc_mixing_q_length l_log).
Qed.

Lemma calc_mixing_dD_nth (l_log : bool) (i : nat) :
  (i < 50)%nat ->
  nth i (snd (calc_mixing (q0, dD0) (q1, dD1) l_log)) 0 =
  q0 * (dD0 - dDf) * (1 / nth i (fst (calc_mixing (q0, dD0) (q1, dD1) l_log)) 0)
  + dDf.
Proof.
  intros Hi. pose proof (calc_mixing_q_length l_log) as Hlen.
  cbn [calc_mixing fst snd] in *.
  now rewrite nth_map_lt by (rewrite Hlen; exact Hi).
Qed.

End Mixing.

(** ** Properties of the equilibrium model *)

(** C7 (amended): in exact arithmetic, for every temperature T > 0
    (Kelvin), [aeq T] is strictly positive. *)
Theorem aeq_pos (T : R) : 0 < T -> 0 < aeq T.
Proof.
  intros _. unfold aeq.
  apply Rdiv_lt_0_compat; [lra | apply exp_pos].
Qed.

Lemma aeq_pos_witness : 0 < 273.15 /\ 0 < aeq 273.15.
Proof.
  split; [lra | apply (aeq_pos 273.15); lra].
Defined.

(** C6 (amended): in exact arithmetic and away from absolute zero,
    [get_dDdeq] is affine in dDv with unit slope:
    get_dDdeq(T, dDv + k, dDr) = get_dDdeq(T, dDv, dDr) + k. *)
Theorem get_dDdeq_affine (T dDv dDr k : R) :
  T + 273.15 <> 0 ->
  get_dDdeq T (dDv + k) dDr = get_dDdeq T dDv dDr + k.
Proof. intros _. unfold get_dDdeq. ring. Qed.

Lemma get_dDdeq_affine_witness :
  0 + 273.15 <> 0 /\
  get_dDdeq 0 (-80 + 5) (-50) = get_dDdeq 0 (-80) (-50) + 5.
Proof.
  split; [lra | apply (get_dDdeq_affine 0 (-80) (-50) 5); lra].
Defined.

(** ** Properties of the mixing curve *)

(** C1: for q0 > 0, q1 > 0 and q0 <> q1, in both spacing modes the first
    sample of dD is dD0 and the last sample (index 49 of 50) is dD1. *)
Theorem calc_mixing_endpoints (q0 dD0 q1 dD1 : R) (l_log : bool) :
  0 < q0 -> 0 < q1 -> q0 <> q1 ->
  let dD := snd (calc_mixing (q0, dD0) (q1, dD1) l_log) in
  nth 0 dD 0 = dD0 /\ nth 49 dD 0 = dD1 /\ last dD 0 = dD1.
Proof.
  intros H0 H1 Hne dD.
  assert (Hq0 : nth 0 (fst (calc_mixing (q0, dD0) (q1, dD1) l_log)) 0 = q0).
  { destruct l_log.
    - rewrite calc_mixing_q_log by lia. simpl INR.
      rewrite Rmult_0_l, Rplus_0_r. now apply exp_ln.
    - rewrite calc_mixing_q_lin by lia. simpl INR. lra. }
  assert (Hq1 : nth 49 (fst (calc_mixing (q0, dD0) (q1, dD1) l_log)) 0 = q1).
  { destruct l_log.
    - rewrite calc_mixing_q_log by lia.
      replace (INR 49) with 49 by (simpl; lra).
      replace (ln q0 + 49 * ((ln q1 - ln q0) / 49)) with (ln q1) by field.
      now apply exp_ln.
    - rewrite calc_mixing_q_lin by lia.
      replace (INR 49) with 49 by (simpl; lra). field. }
  assert (Hd : q1 - q0 <> 0) by lra.
  assert (E0 : nth 0 dD 0 = dD0).
  { unfold dD. rewrite calc_mixing_dD_nth by lia. rewrite Hq0.
    field. split; lra. }
  assert (E1 : nth 49 dD 0 = dD1).
  { unfold dD. rewrite calc_mixing_dD_nth by lia. rewrite Hq1.
    field. split; lra. }
  repeat split; try assumption.
  rewrite <- E1.
  pose proof (calc_mixing_dD_length q0 dD0 q1 dD1 l_log) as Hlen.
  fold dD in Hlen. clearbody dD.
  destruct (exists_last (l := dD)) as [l' [a ->]].
  { intros ->. discriminate Hlen. }
  rewrite length_app in Hlen. simpl in Hlen.
  rewrite last_last, app_nth2 by lia.
  replace (49 - length l')%nat with 0%nat by lia. reflexivity.
Qed.

Lemma calc_mixing_endpoints_witness :
  (0 < 50 /\ 0 < 15300 /\ 50 <> 15300) /\
  let dD := snd (calc_mixing (50, -700) (15300, -150) true) in
  nth 0 dD 0 = -700 /\ nth 49 dD 0 = -150 /\ last dD 0 = -150.
Proof.
  split; [lra | apply (calc_mixing_endpoints 50 (-700) 15300 (-150) true); lra].
Defined.



(** ** Further properties of the mixing curve *)

Section MixingCurve.

Variables q0 dD0 q1 dD1 : R.
Variable l_log : bool.

Hypothesis q0_pos : 0 < q0.
Hypothesis q1_pos : 0 < q1.

Let q := fst (calc_mixing (q0, dD0) (q1, dD1) l_log).
Let dD := snd (calc_mixing (q0, dD0) (q1, dD1) l_log).

Lemma calc_mixing_q_first : nth 0 q 0 = q0.
Proof.
  unfold q. destruct l_log.
  - rewrite calc_mixing_q_log by lia. simpl INR.
    rewrite Rmult_0_l, Rplus_0_r. now apply exp_ln.
  - rewrite calc_mixing_q_lin by lia. simpl INR. lra.
Qed.

Lemma calc_mixing_q_last : nth 49 q 0 = q1.
Proof.
  unfold q. destruct l_log.
  - rewrite calc_mixing_q_log by lia.
    replace (INR 49) with 49 by (simpl; lra).
    replace (ln q0 + 49 * ((ln q1 - ln q0) / 49)) with (ln q1) by field.
    now apply exp_ln.
  - rewrite calc_mixing_q_lin by lia.
    replace (INR 49) with 49 by (simpl; lra). field.
Qed.

Lemma calc_mixing_q_pos (i : nat) : (i < 50)%nat -> 0 < nth i q 0.
Proof.
  intros Hi. unfold q. destruct l_log.
  - rewrite calc_mixing_q_log by lia. apply exp_pos.
  - rewrite calc_mixing_q_lin by lia.
    assert (Hb : 0 <= INR i <= 49).
    { split; [apply pos_INR|].
      replace 49 with (INR 49) by (simpl; lra). apply le_INR. lia. }
    replace (q0 + INR i * ((q1 - q0) / 49))
      with ((1 - INR i / 49) * q0 + (INR i / 49) * q1) by field.
    assert (0 <= INR i / 49 <= 1) by (split; lra).
    nra.
Qed.

Lemma calc_mixing_q_increasing (i j : nat) :
  q0 < q1 -> (i < j < 50)%nat -> nth i q 0 < nth j q 0.
Proof.
  intros Hlt [Hij Hj].
  assert (Hr : INR i < INR j) by now apply lt_INR.
  unfold q. destruct l_log.
  - rewrite !calc_mixing_q_log by lia. apply exp_increasing.
    assert (ln q0 < ln q1) by now apply ln_increasing.
    nra.
  - rewrite !calc_mixing_q_lin by lia. nra.
Qed.

Lemma calc_mixing_q_decreasing (i j : nat) :
  q1 < q0 -> (i < j < 50)%nat -> nth j q 0 < nth i q 0.
Proof.
  intros Hlt [Hij Hj].
  assert (Hr : INR i < INR j) by now apply lt_INR.
  unfold q. destruct l_log.
  - rewrite !calc_mixing_q_log by lia. apply exp_increasing.
    assert (ln q1 < ln q0) by now apply ln_increasing.
    nra.
  - rewrite !calc_mixing_q_lin by lia. nra.
Qed.

End MixingCurve.

Lemma calc_mixing_dD_first (q0 dD0 q1 dD1 : R) (l_log : bool) :
  0 < q0 -> 0 < q1 -> q0 <> q1 ->
  nth 0 (snd (calc_mixing (q0, dD0) (q1, dD1) l_log)) 0 = dD0.
Proof.
  intros H0 H1 Hne. rewrite calc_mixing_dD_nth by lia.
  rewrite calc_mixing_q_first by assumption. field. split; lra.
Qed.

Lemma calc_mixing_dD_last (q0 dD0 q1 dD1 : R) (l_log : bool) :
  0 < q0 -> 0 < q1 -> q0 <> q1 ->
  nth 49 (snd (calc_mixing (q0, dD0) (q1, dD1) l_log)) 0 = dD1.
Proof.
  intros H0 H1 Hne. rewrite calc_mixing_dD_nth by lia.
  rewrite calc_mixing_q_last by assumption. field. split; lra.
Qed.

(** The step of dD between two samples, in terms of the q samples. *)
Lemma calc_mixing_dD_step (q0 dD0 q1 dD1 : R) (l_log : bool) (i j : nat) :
  0 < q0 -> 0 < q1 -> q0 <> q1 -> (i < 50)%nat -> (j < 50)%nat ->
  let q := fst (calc_mixing (q0, dD0) (q1, dD1) l_log) in
  let dD := snd (calc_mixing (q0, dD0) (q1, dD1) l_log) in
  nth j dD 0 - nth i dD 0 =
  (dD1 - dD0) * (q0 * q1 * ((nth j q 0 - nth i q 0) / (q1 - q0))
                 / (nth i q 0 * nth j q 0)).
Proof.
  intros H0 H1 Hne Hi Hj q dD. unfold dD.
  rewrite !calc_mixing_dD_nth by assumption. fold q.
  pose proof (calc_mixing_q_pos q0 dD0 q1 dD1 l_log H0 H1 i Hi) as Pi.
  pose proof (calc_mixing_q_pos q0 dD0 q1 dD1 l_log H0 H1 j Hj) as Pj.
  fold q in Pi, Pj. field. repeat split; lra.
Qed.

(** The weight of the step is positive whichever endpoint is the larger:
    the q samples move with the sign of q1 - q0. *)
Lemma calc_mixing_weight_pos (q0 dD0 q1 dD1 : R) (l_log : bool) (i j : nat) :
  0 < q0 -> 0 < q1 -> q0 <> q1 -> (i < j < 50)%nat ->
  let q := fst (calc_mixing (q0, dD0) (q1, dD1) l_log) in
  0 < q0 * q1 * ((nth j q 0 - nth i q 0) / (q1 - q0))
      / (nth i q 0 * nth j q 0).
Proof.
  intros H0 H1 Hne Hij q.
  pose proof (calc_mixing_q_pos q0 dD0 q1 dD1 l_log H0 H1 i) as Pi.
  pose proof (calc_mixing_q_pos q0 dD0 q1 dD1 l_log H0 H1 j) as Pj.
  fold q in Pi, Pj. specialize (Pi ltac:(lia)). specialize (Pj ltac:(lia)).
  assert (Hs : 0 < (nth j q 0 - nth i q 0) / (q1 - q0)).
  { destruct (Rdichotomy _ _ Hne) as [Hlt|Hlt].
    - pose proof (calc_mixing_q_increasing q0 dD0 q1 dD1 l_log H0 i j
                    Hlt Hij) as Hq. fold q in Hq.
      apply Rdiv_lt_0_compat; lra.
    - pose proof (calc_mixing_q_decreasing q0 dD0 q1 dD1 l_log H1 i j
                    Hlt Hij) as Hq. fold q in Hq.
      replace ((nth j q 0 - nth i q 0) / (q1 - q0))
        with ((nth i q 0 - nth j q 0) / (q0 - q1)) by (field; lra).
      apply Rdiv_lt_0_compat; lra. }
  apply Rdiv_lt_0_compat.
  - apply Rmult_lt_0_compat; [apply Rmult_lt_0_compat|]; assumption.
  - now apply Rmult_lt_0_compat.
Qed.



(** X2: for positive distinct endpoints the dD samples move strictly
    monotonically from dD0 towards dD1, in both modes and whichever of q0,
    q1 is the larger; when dD0 = dD1 every sample is dD0. *)
Theorem calc_mixing_dD_monotone (q0 dD0 q1 dD1 : R) (l_log : bool) :
  0 < q0 -> 0 < q1 -> q0 <> q1 ->
  let dD := snd (calc_mixing (q0, dD0) (q1, dD1) l_log) in
  forall i j, (i < j < 50)%nat ->
    (dD0 < dD1 -> nth i dD 0 < nth j dD 0) /\
    (dD1 < dD0 -> nth j dD 0 < nth i dD 0) /\
    (dD0 = dD1 -> nth i dD 0 = dD0 /\ nth j dD 0 = dD0).
Proof.
  intros H0 H1 Hne dD i j Hij.
  pose proof (calc_mixing_dD_step q0 dD0 q1 dD1 l_log i j H0 H1 Hne
                ltac:(lia) ltac:(lia)) as Hs.
  pose proof (calc_mixing_weight_pos q0 dD0 q1 dD1 l_log i j H0 H1 Hne Hij)
    as Hw.
  cbv zeta in Hs, Hw. fold dD in Hs.
  set (w := _ / _) in Hs, Hw.
  split; [|split].
  - intros Hlt. nra.
  - intros Hlt. nra.
  - intros ->.
    pose proof (calc_mixing_dD_step q0 dD1 q1 dD1 l_log 0 i H0 H1 Hne
                  ltac:(lia) ltac:(lia)) as Hz.
    cbv zeta in Hz. rewrite calc_mixing_dD_first in Hz by assumption.
    fold dD in Hz. split; lra.
Qed.

Lemma calc_mixing_dD_monotone_witness :
  (0 < 50 /\ 0 < 15300 /\ 50 <> 15300) /\
  let dD := snd (calc_mixing (50, -700) (15300, -150) true) in
  forall i j, (i < j < 50)%nat ->
    (-700 < -150 -> nth i dD 0 < nth j dD 0) /\
    (-150 < -700 -> nth j dD 0 < nth i dD 0) /\
    (-700 = -150 -> nth i dD 0 = -700 /\ nth j dD 0 = -700).
Proof.
  split; [lra|].
  apply (calc_mixing_dD_monotone 50 (-700) 15300 (-150) true); lra.
Defined.

(** X3: for positive distinct endpoints no dD sample overshoots: every one
    of the 50 samples lies between dD0 and dD1, in both modes. *)
Theorem calc_mixing_dD_between (q0 dD0 q1 dD1 : R) (l_log : bool) (i : nat) :
  0 < q0 -> 0 < q1 -> q0 <> q1 -> (i < 50)%nat ->
  let dD := snd (calc_mixing (q0, dD0) (q1, dD1) l_log) in
  Rmin dD0 dD1 <= nth i dD 0 <= Rmax dD0 dD1.
Proof.
  intros H0 H1 Hne Hi dD.
  assert (Hlo : exists w, 0 <= w /\ nth i dD 0 - dD0 = (dD1 - dD0) * w).
  { destruct (Nat.eq_dec i 0) as [->|Hn].
    - exists 0. unfold dD. rewrite calc_mixing_dD_first by assumption.
      split; lra.
    - pose proof (calc_mixing_dD_step q0 dD0 q1 dD1 l_log 0 i H0 H1 Hne
                    ltac:(lia) Hi) as Hs.
      pose proof (calc_mixing_weight_pos q0 dD0 q1 dD1 l_log 0 i H0 H1 Hne
                    ltac:(lia)) as Hw.
      cbv zeta in Hs, Hw. rewrite calc_mixing_dD_first in Hs by assumption.
      eexists. split; [apply Rlt_le, Hw | exact Hs]. }
  assert (Hhi : exists w, 0 <= w /\ dD1 - nth i dD 0 = (dD1 - dD0) * w).
  { destruct (Nat.eq_dec i 49) as [->|Hn].
    - exists 0. unfold dD. rewrite calc_mixing_dD_last by assumption.
      split; lra.
    - pose proof (calc_mixing_dD_step q0 dD0 q1 dD1 l_log i 49 H0 H1 Hne
                    Hi ltac:(lia)) as Hs.
      pose proof (calc_mixing_weight_pos q0 dD0 q1 dD1 l_log i 49 H0 H1 Hne
                    ltac:(lia)) as Hw.
      cbv zeta in Hs, Hw. rewrite calc_mixing_dD_last in Hs by assumption.
      eexists. split; [apply Rlt_le, Hw | exact Hs]. }
  destruct Hlo as [w1 [Hw1 E1]], Hhi as [w2 [Hw2 E2]].
  unfold Rmin, Rmax. destruct (Rle_dec dD0 dD1); split; nra.
Qed.

Lemma calc_mixing_dD_between_witness :
  (0 < 50 /\ 0 < 15300 /\ 50 <> 15300 /\ (7 < 50)%nat) /\
  let dD := snd (calc_mixing (50, -700) (15300, -150) true) in
  Rmin (-700) (-150) <= nth 7 dD 0 <= Rmax (-700) (-150).
Proof.
  split; [repeat split; try lra; lia|].
  apply (calc_mixing_dD_between 50 (-700) 15300 (-150) true 7); try lra; lia.
Defined.

(** X4: for positive distinct endpoints every sample lies on the straight
    line through the two endpoints in (1/q, dD) coordinates:
    (dD[i] - dD0) * (1/q1 - 1/q0) = (dD1 - dD0) * (1/q[i] - 1/q0). *)
Theorem calc_mixing_collinear (q0 dD0 q1 dD1 : R) (l_log : bool) (i : nat) :
  0 < q0 -> 0 < q1 -> q0 <> q1 -> (i < 50)%nat ->
  let q := fst (calc_mixing (q0, dD0) (q1, dD1) l_log) in
  let dD := snd (calc_mixing (q0, dD0) (q1, dD1) l_log) in
  (nth i dD 0 - dD0) * (1 / q1 - 1 / q0) =
  (dD1 - dD0) * (1 / nth i q 0 - 1 / q0).
Proof.
  intros H0 H1 Hne Hi q dD. unfold dD.
  rewrite calc_mixing_dD_nth by assumption. fold q.
  pose proof (calc_mixing_q_pos q0 dD0 q1 dD1 l_log H0 H1 i Hi) as Pi.
  fold q in Pi. field. repeat split; lra.
Qed.

Lemma calc_mixing_collinear_witness :
  (0 < 50 /\ 0 < 15300 /\ 50 <> 15300 /\ (7 < 50)%nat) /\
  let q := fst (calc_mixing (50, -700) (15300, -150) false) in
  let dD := snd (calc_mixing (50, -700) (15300, -150) false) in
  (nth 7 dD 0 - -700) * (1 / 15300 - 1 / 50) =
  (-150 - -700) * (1 / nth 7 q 0 - 1 / 50).
Proof.
  split; [repeat split; try lra; lia|].
  apply (calc_mixing_collinear 50 (-700) 15300 (-150) false 7); try lra; lia.
Defined.

(** X5: exchanging the two endpoints reverses the curve: for positive
    q0 <> q1, sample i of calc_mixing(p1, p0) is sample 49 - i of
    calc_mixing(p0, p1), for q and for dD, in both modes. *)
Theorem calc_mixing_swap (q0 dD0 q1 dD1 : R) (l_log : bool) (i : nat) :
  0 < q0 -> 0 < q1 -> q0 <> q1 -> (i < 50)%nat ->
  nth i (fst (calc_mixing (q1, dD1) (q0, dD0) l_log)) 0 =
    nth (49 - i) (fst (calc_mixing (q0, dD0) (q1, dD1) l_log)) 0 /\
  nth i (snd (calc_mixing (q1, dD1) (q0, dD0) l_log)) 0 =
    nth (49 - i) (snd (calc_mixing (q0, dD0) (q1, dD1) l_log)) 0.
Proof.
  intros _ _ Hne Hi.
  assert (Hr : INR (49 - i) = 49 - INR i).
  { rewrite minus_INR by lia. simpl INR. lra. }
  assert (Hq : nth i (fst (calc_mixing (q1, dD1) (q0, dD0) l_log)) 0 =
               nth (49 - i) (fst (calc_mixing (q0, dD0) (q1, dD1) l_log)) 0).
  { destruct l_log.
    - rewrite !calc_mixing_q_log by lia. rewrite Hr. f_equal. field.
    - rewrite !calc_mixing_q_lin by lia. rewrite Hr. field. }
  split; [exact Hq|].
  rewrite !calc_mixing_dD_nth by lia. rewrite Hq.
  set (x := 1 / _). field. split; lra.
Qed.

Lemma calc_mixing_swap_witness :
  (0 < 50 /\ 0 < 15300 /\ 50 <> 15300 /\ (7 < 50)%nat) /\
  nth 7 (fst (calc_mixing (15300, -150) (50, -700) true)) 0 =
    nth (49 - 7) (fst (calc_mixing (50, -700) (15300, -150) true)) 0 /\
  nth 7 (snd (calc_mixing (15300, -150) (50, -700) true)) 0 =
    nth (49 - 7) (snd (calc_mixing (50, -700) (15300, -150) true)) 0.
Proof.
  split; [repeat split; try lra; lia|].
  apply (calc_mixing_swap 50 (-700) 15300 (-150) true 7); try lra; lia.
Defined.

(** ** Further properties of the equilibrium model *)

(** The exponent of [aeq] as a polynomial in u = 1/T. *)
Lemma aeq_inv_poly (T : R) :
  T <> 0 ->
  aeq T = 1 / exp (24844 * (/ T * / T) - 76.248 * / T + 0.05261).
Proof.
  intros HT. unfold aeq. do 2 f_equal. field. exact HT.
Qed.

Lemma inv_exp_lt (x y : R) : x < y -> 1 / exp y < 1 / exp x.
Proof.
  intros H. unfold Rdiv. rewrite !Rmult_1_l.
  apply Rinv_lt_contravar.
  - apply Rmult_lt_0_compat; apply exp_pos.
  - now apply exp_increasing.
Qed.

(** X6: for 0 < T <= 490 Kelvin the factor lies strictly between 0 and 1
    (the exponent 24844/T^2 - 76.248/T + 0.05261 is positive there). *)
Theorem aeq_below_one (T : R) : 0 < T <= 490 -> 0 < aeq T < 1.
Proof.
  intros [H0 H1]. split.
  - unfold aeq. apply Rdiv_lt_0_compat; [lra | apply exp_pos].
  - unfold aeq.
    replace 1 with (1 / exp 0) at 2 by (rewrite exp_0; lra).
    apply inv_exp_lt.
    replace (24844 / T ^ 2 - 76.248 / T + 0.05261)
      with ((24844 - 76.248 * T + 0.05261 * (T * T)) / (T * T))
      by (field; lra).
    apply Rdiv_lt_0_compat; [|nra].
    pose proof (Rmult_le_pos (490 - T) (76.248 - 0.05261 * (T + 490))
                  ltac:(lra) ltac:(lra)).
    nra.
Qed.

Lemma aeq_below_one_witness : 0 < 273.15 <= 490 /\ 0 < aeq 273.15 < 1.
Proof.
  split; [lra | apply (aeq_below_one 273.15); lra].
Defined.

(** Below 650 Kelvin the exponent of [aeq] falls as T rises. *)
Lemma aeq_exponent_decreasing (T1 T2 : R) :
  0 < T1 -> T1 < T2 -> T2 <= 650 ->
  24844 * (/ T2 * / T2) - 76.248 * / T2 + 0.05261 <
  24844 * (/ T1 * / T1) - 76.248 * / T1 + 0.05261.
Proof.
  intros H0 H12 H2.
  assert (Hu : / T2 < / T1).
  { apply Rinv_lt_contravar; [apply Rmult_lt_0_compat|]; lra. }
  assert (Hl : / 650 <= / T2).
  { apply Rinv_le_contravar; lra. }
  set (u1 := / T1) in *. set (u2 := / T2) in *.
  assert (Hs : 0 < 24844 * (u1 + u2) - 76.248) by lra.
  assert (Hd : 0 < u1 - u2) by lra.
  pose proof (Rmult_lt_0_compat _ _ Hd Hs). nra.
Qed.

(** X7: the factor grows with temperature: for 0 < T1 < T2 <= 650 Kelvin,
    aeq(T1) < aeq(T2). *)
Theorem aeq_increasing (T1 T2 : R) :
  0 < T1 -> T1 < T2 -> T2 <= 650 -> aeq T1 < aeq T2.
Proof.
  intros H0 H12 H2.
  rewrite (aeq_inv_poly T1), (aeq_inv_poly T2) by lra.
  apply inv_exp_lt. now apply aeq_exponent_decreasing.
Qed.

Lemma aeq_increasing_witness :
  (0 < 273.15 /\ 273.15 < 303.15 /\ 303.15 <= 650) /\
  aeq 273.15 < aeq 303.15.
Proof.
  split; [lra | apply (aeq_increasing 273.15 303.15); lra].
Defined.

(** X8: away from absolute zero [get_dDdeq] is affine in the rain ratio
    with slope -aeq(T + 273.15), hence strictly decreasing in it:
    get_dDdeq(T, dDv, dDr + k) = get_dDdeq(T, dDv, dDr) - aeq(T + 273.15) * k,
    and a larger dDr gives a smaller disequilibrium. *)
Theorem get_dDdeq_rain (T dDv dDr k : R) :
  T + 273.15 <> 0 ->
  get_dDdeq T dDv (dDr + k) = get_dDdeq T dDv dDr - aeq (T + 273.15) * k /\
  (0 < k -> get_dDdeq T dDv (dDr + k) < get_dDdeq T dDv dDr).
Proof.
  intros _.
  assert (E : get_dDdeq T dDv (dDr + k)
              = get_dDdeq T dDv dDr - aeq (T + 273.15) * k)
    by (unfold get_dDdeq; ring).
  split; [exact E|]. intros Hk. rewrite E.
  assert (0 < aeq (T + 273.15))
    by (unfold aeq; apply Rdiv_lt_0_compat; [lra | apply exp_pos]).
  nra.
Qed.

Lemma get_dDdeq_rain_witness :
  (0 + 273.15 <> 0 /\ 0 < 10) /\
  get_dDdeq 0 (-80) (-50 + 10) = get_dDdeq 0 (-80) (-50) - aeq (0 + 273.15) * 10 /\
  get_dDdeq 0 (-80) (-50 + 10) < get_dDdeq 0 (-80) (-50).
Proof.
  split; [split; lra|].
  destruct (get_dDdeq_rain 0 (-80) (-50) 10 ltac:(lra)) as [E H].
  split; [exact E | apply H; lra].
Defined.

(** X9: between absolute zero and 216.85 degrees Celsius, and for a rain
    ratio above -1000 permil, the equilibrium vapor is depleted relative to
    the rain, so vapor with the rain's own ratio has a positive
    disequilibrium: get_dDdeq(T, dDv, dDr) > dDv - dDr. *)
Theorem get_dDdeq_depleted (T dDv dDr : R) :
  -273.15 < T <= 216.85 -> -1000 < dDr ->
  dDv - dDr < get_dDdeq T dDv dDr.
Proof.
  intros HT Hr.
  assert (Ha : 0 < aeq (T + 273.15) < 1).
  { unfold aeq. split.
    - apply Rdiv_lt_0_compat; [lra | apply exp_pos].
    - set (K := T + 273.15). assert (HK : 0 < K <= 490) by (unfold K; lra).
      replace 1 with (1 / exp 0) at 2 by (rewrite exp_0; lra).
      apply inv_exp_lt.
      replace (24844 / K ^ 2 - 76.248 / K + 0.05261)
        with ((24844 - 76.248 * K + 0.05261 * (K * K)) / (K * K))
        by (field; lra).
      apply Rdiv_lt_0_compat; [|nra].
      pose proof (Rmult_le_pos (490 - K) (76.248 - 0.05261 * (K + 490))
                    ltac:(lra) ltac:(lra)).
      nra. }
  unfold get_dDdeq. nra.
Qed.

Lemma get_dDdeq_depleted_witness :
  (-273.15 < 0 <= 216.85 /\ -1000 < -50) /\
  -80 - -50 < get_dDdeq 0 (-80) (-50).
Proof.
  split; [lra | apply (get_dDdeq_depleted 0 (-80) (-50)); lra].
Defined.

(** X20: for a rain ratio above -1000 permil the disequilibrium falls as
    the temperature rises: for -273.15 < T1 < T2 <= 376.85 degrees Celsius,
    get_dDdeq(T2, dDv, dDr) < get_dDdeq(T1, dDv, dDr). *)
Theorem get_dDdeq_temperature (T1 T2 dDv dDr : R) :
  -273.15 < T1 -> T1 < T2 -> T2 <= 376.85 -> -1000 < dDr ->
  get_dDdeq T2 dDv dDr < get_dDdeq T1 dDv dDr.
Proof.
  intros H0 H12 H2 Hr.
  assert (Ha : aeq (T1 + 273.15) < aeq (T2 + 273.15)).
  { rewrite (aeq_inv_poly (T1 + 273.15)), (aeq_inv_poly (T2 + 273.15)) by lra.
    apply inv_exp_lt. apply aeq_exponent_decreasing; lra. }
  unfold get_dDdeq. nra.
Qed.

Lemma get_dDdeq_temperature_witness :
  (-273.15 < 0 /\ 0 < 30 /\ 30 <= 376.85 /\ -1000 < -50) /\
  get_dDdeq 30 (-80) (-50) < get_dDdeq 0 (-80) (-50).
Proof.
  split; [lra | apply (get_dDdeq_temperature 0 30 (-80) (-50)); lra].
Defined.

End Exact.

Module Py.

Open Scope float_scope.

(** ** Values and exceptions *)

(** The exceptions the module's own code can raise. *)
Inductive exn : Type :=
  | ZeroDivisionError
  | OverflowError
  | IndexError
  | UnboundLocalError.

Inductive result (A : Type) : Type :=
  | Ok (a : A)
  | Raise (e : exn).
Arguments Ok {A} a.
Arguments Raise {A} e.

Definition bind {A B : Type} (r : result A) (k : A -> result B) : result B :=
  match r with
  | Ok a => k a
  | Raise e => Raise e
  end.

(** A binary64 number together with the type that carries it: a Python
    [float], whose [/] raises on a zero divisor, or a NumPy [float64]
    scalar, whose [/] follows IEEE 754.  The integer literals of the source
    ([1], [-30], [-700], ...) are read as the floats of the same value. *)
Inductive scalar : Type :=
  | PyFloat (x : float)
  | NpFloat64 (x : float).

Definition val (s : scalar) : float :=
  match s with PyFloat x | NpFloat64 x => x end.

Definition is_python (s : scalar) : bool :=
  match s with PyFloat _ => true | NpFloat64 _ => false end.

(** The result of a binary operation is a Python float only when both
    operands are. *)
Definition retag (a b : scalar) (x : float) : scalar :=
  if is_python a && is_python b then PyFloat x else NpFloat64 x.

Definition py_add (a b : scalar) : scalar := retag a b (val a + val b).
Definition py_sub (a b : scalar) : scalar := retag a b (val a - val b).
Definition py_mul (a b : scalar) : scalar := retag a b (val a * val b).

Definition py_div (a b : scalar) : result scalar :=
  if is_python a && is_python b && is_zero (val b)
  then Raise ZeroDivisionError
  else Ok (retag a b (val a / val b)).

(** [x ** 2]: the rounded square.  On a Python float a finite operand
    whose square overflows raises OverflowError (an underflow to zero does
    not raise); on a NumPy float64 the square follows IEEE 754. *)
Definition py_pow2 (a : scalar) : result scalar :=
  match a with
  | PyFloat x =>
      if is_finite x && is_infinity (x * x)
      then Raise OverflowError
      else Ok (PyFloat (x * x))
  | NpFloat64 x => Ok (NpFloat64 (x * x))
  end.

(** The decimal literals of the source that are not binary64 values, as
    the binary64 values nearest to them. *)
Definition lit_76_248 : float := 0x1.30fdf3b645a1dp+6.
Definition lit_0_05261 : float := 0x1.aefb2aae29739p-5.
Definition lit_273_15 : float := 0x1.1126666666666p+8.

(** What the adapters hand to the Rayleigh generator: a number or [None]. *)
Inductive value : Type :=
  | VNone
  | VNum (s : scalar).

Definition is_none (v : value) : bool :=
  match v with VNone => true | VNum _ => false end.

(** ** NumPy arrays *)

Definition array : Type := list float.

Definition of_nat (i : nat) : float := of_uint63 (Uint63.of_Z (Z.of_nat i)).

(** [np.linspace(start, stop)] with [num = 50] and [endpoint = True], as
    NumPy computes it: [step = delta / div]; the samples are
    [arange(0, num) * step + start] (or, when the step underflows to zero,
    [arange(0, num) / div * delta + start]); the last one is then
    overwritten with [stop]. *)
Definition linspace (start stop : float) : array :=
  let num := 50%nat in
  let div := of_nat (num - 1) in
  let delta := stop - start in
  let y := map of_nat (seq 0 num) in
  let step := delta / div in
  let y := if step =? 0
           then map (fun yi => yi / div * delta) y
           else map (fun yi => yi * step) y in
  let y := map (fun yi => yi + start) y in
  set_last y stop.

(** The five sequences of the Rayleigh generator. *)
Definition curves : Type := array * array * array * array * array.

(** ** The plot axis *)

(** A drawn line: data and style as passed to [ax.plot]. *)
Record line : Type := mkLine {
  xdata : array;
  ydata : array;
  color : string;
  dashes : Z * list Z;
  linewidth : scalar;
  label : string
}.

(** The axis is the list of lines drawn on it, oldest first. *)
Definition axis : Type := list line.

(** Code that draws on the axis and may raise: the axis is threaded
    through, and survives an exception. *)
Definition plotM (A : Type) : Type := axis -> axis * result A.

Definition ret {A : Type} (a : A) : plotM A := fun ax => (ax, Ok a).

Definition raise {A : Type} (e : exn) : plotM A := fun ax => (ax, Raise e).

Definition lift {A : Type} (r : result A) : plotM A := fun ax => (ax, r).

Definition bindM {A B : Type} (m : plotM A) (k : A -> plotM B) : plotM B :=
  fun ax =>
    match m ax with
    | (ax', Ok a) => k a ax'
    | (ax', Raise e) => (ax', Raise e)
    end.

Notation "x <- m ;; k" := (bindM m (fun x => k))
  (at level 61, m at next level, right associativity).

(** [ax.plot(x, y, c=, ls=, lw=, label=)]: draws one line and returns the
    list of drawn lines, which the callers unpack to its single handle. *)
Definition ax_plot (x y : array) (c : string) (ls : Z * list Z)
    (lw : scalar) (lbl : string) : plotM line :=
  fun ax =>
    let h := mkLine x y c ls lw lbl in
    (ax ++ [h], Ok h).

(** Python's [l[:n]]. *)
Definition slice_to (n : Z) (l : array) : array :=
  if (0 <=? n)%Z
  then firstn (Z.to_nat n) l
  else firstn (length l - Z.to_nat (- n)) l.

(** Python's [l[i]] on a list of integers. *)
Definition index (l : list Z) (i : nat) : result Z :=
  match nth_error l i with
  | Some x => Ok x
  | None => Raise IndexError
  end.

(** ** IEEE 754 facts used below *)

Definition nan_or_inf (x : float) : bool := is_nan x || is_infinity x.

Inductive not_finite : spec_float -> Prop :=
  | nf_nan : not_finite S754_nan
  | nf_inf (s : bool) : not_finite (S754_infinity s).

Lemma is_zero_inv (x : float) :
  is_zero x = true -> exists s, Prim2SF x = S754_zero s.
Proof.
  unfold is_zero. rewrite FloatAxioms.eqb_spec.
  change (Prim2SF zero) with (S754_zero false).
  destruct (Prim2SF x) as [s|s| |s m e]; cbn; try discriminate.
  - intros _. now exists s.
  - destruct s; discriminate.
  - destruct s; discriminate.
Qed.

Lemma is_zero_intro (x : float) (s : bool) :
  Prim2SF x = S754_zero s -> is_zero x = true.
Proof.
  intros H. unfold is_zero. rewrite FloatAxioms.eqb_spec, H. reflexivity.
Qed.

(** The square of a zero is a zero. *)
Lemma mul_self_zero (x : float) : is_zero x = true -> is_zero (x * x) = true.
Proof.
  intros H. destruct (is_zero_inv x H) as [s Hs].
  apply (is_zero_intro _ (xorb s s)). rewrite mul_spec, Hs. reflexivity.
Qed.

(** Whatever a is, a * 0 - 1000 is -1000 or NaN. *)
Lemma mul_zero_sub_1000 (a : float) :
  a * 0 - 1000 = -1000 \/ a * 0 - 1000 = nan.
Proof.
  assert (H : Prim2SF (a * 0 - 1000) = Prim2SF (-1000) \/
              Prim2SF (a * 0 - 1000) = Prim2SF nan).
  { rewrite sub_spec, mul_spec.
    change (Prim2SF 0) with (S754_zero false).
    let v := eval vm_compute in (Prim2SF 1000) in change (Prim2SF 1000) with v.
    let v := eval vm_compute in (Prim2SF (-1000)) in
      change (Prim2SF (-1000)) with v.
    change (Prim2SF nan) with S754_nan.
    destruct (Prim2SF a) as [s|s| |s m e]; cbn; auto. }
  destruct H as [H|H]; [left | right]; now apply Prim2SF_inj.
Qed.

Lemma nan_or_inf_intro (x : float) :
  not_finite (Prim2SF x) -> nan_or_inf x = true.
Proof.
  unfold nan_or_inf, is_nan, is_infinity.
  rewrite !FloatAxioms.eqb_spec, abs_spec.
  change (Prim2SF infinity) with (S754_infinity false).
  intros H. inversion H as [E|s E]; cbn; [reflexivity|].
  destruct s; reflexivity.
Qed.

(** x / 0 is NaN or an infinity, whatever x is. *)
Lemma div_zero_not_finite (x y : float) :
  is_zero y = true -> not_finite (Prim2SF (x / y)).
Proof.
  intros Hy. destruct (is_zero_inv y Hy) as [s Hs].
  rewrite div_spec, Hs. unfold SF64div.
  destruct (Prim2SF x) as [sx|sx| |sx m e]; cbn; constructor.
Qed.

(** x + y is NaN or an infinity as soon as y is. *)
Lemma add_not_finite (x y : float) :
  not_finite (Prim2SF y) -> not_finite (Prim2SF (x + y)).
Proof.
  intros Hy. rewrite add_spec. unfold SF64add.
  inversion Hy as [E|s E];
    destruct (Prim2SF x) as [sx|sx| |sx m e]; cbn; try constructor.
  destruct sx, s; constructor.
Qed.

Lemma is_finite_inv (x : float) :
  is_finite x = true -> ~ not_finite (Prim2SF x).
Proof.
  intros H Hn. apply nan_or_inf_intro in Hn.
  unfold is_finite in H. fold (nan_or_inf x) in H.
  rewrite Hn in H. discriminate.
Qed.

(** For finite x, x == y makes y - x a zero. *)
Lemma eqb_finite_sub_zero (x y : float) :
  (x =? y) = true -> is_finite x = true -> is_zero (y - x) = true.
Proof.
  intros He Hf. apply is_finite_inv in Hf.
  unfold is_zero. rewrite FloatAxioms.eqb_spec, sub_spec in *.
  change (Prim2SF zero) with (S754_zero false).
  unfold SFeqb in He. unfold SF64sub.
  destruct (Prim2SF x) as [sx|sx| |sx mx ex];
    destruct (Prim2SF y) as [sy|sy| |sy my ey]; cbn in He; try discriminate;
    try (exfalso; apply Hf; constructor).
  all: try (destruct sx; discriminate); try (destruct sy; discriminate).
  - destruct sx, sy; reflexivity.
  - assert (sx = sy /\ ex = ey /\ mx = my) as (-> & -> & ->).
    { destruct sx, sy; try discriminate;
        destruct (Z.compare_spec ex ey); try discriminate;
        (repeat split; [assumption|]).
      - destruct (PosDef.Pos.compare_cont Eq mx my) eqn:C; try discriminate.
        now apply Pos.compare_eq.
      - destruct (PosDef.Pos.compare_cont Eq mx my) eqn:C; try discriminate.
        now apply Pos.compare_eq. }
    cbn. rewrite Z.sub_diag. reflexivity.
Qed.

Lemma linspace_float_length (a b : float) : length (linspace a b) = 50%nat.
Proof.
  unfold linspace. rewrite set_last_length, length_map.
  destruct (_ =? _); now rewrite length_map, length_map, length_seq.
Qed.

(** ** The functions of [iso_diag_BE.py] *)

Section Code.

(** NumPy's [exp] and [log] on float64, and the external Rayleigh-curve
    generator of [create_rayleigh_curves]. *)
Variable np_exp : float -> float.
Variable np_log : float -> float.
Variable RayleighTropen :
  value -> value -> value -> value -> value -> result curves.

(** def aeq(T): return 1 / np.exp( 24844 / T**2 - 76.248 / T + 0.05261 ).
    The operands are evaluated left to right; [np.exp] returns a NumPy
    float64, so the final division follows IEEE 754. *)
Definition aeq (T : scalar) : result scalar :=
  bind (py_pow2 T) (fun T2 =>
  bind (py_div (PyFloat 24844) T2) (fun a =>
  bind (py_div (PyFloat lit_76_248) T) (fun b =>
  let x := py_add (py_sub a b) (PyFloat lit_0_05261) in
  Ok (NpFloat64 (1 / np_exp (val x)))))).

(** def get_dDdeq(T, dDv, dDr) *)
Definition get_dDdeq (T dDv dDr : scalar) : result scalar :=
  bind (aeq (py_add T (PyFloat lit_273_15))) (fun a =>
  let dDeq := py_sub (py_mul a (py_add dDr (PyFloat 1000))) (PyFloat 1000) in
  let dDdeq := py_sub dDv dDeq in
  Ok dDdeq).

Definition default (d : value) (o : option value) : value :=
  match o with Some v => v | None => d end.

(** def calc_rayleigh(T0, rh0, dD0, f = 1, T_g = -30); an omitted optional
    argument is [None : option value]. *)
Definition calc_rayleigh (T0 rh0 dD0 : value) (f T_g : option value)
    : result curves :=
  let f := default (VNum (PyFloat 1)) f in
  let T_g := default (VNum (PyFloat (-30))) T_g in
  RayleighTropen T0 rh0 dD0 f T_g.

(** def calc_mixing(p0, p1, l_log = True) *)
Definition calc_mixing (p0 p1 : scalar * scalar) (l_log : bool)
    : result (array * array) :=
  let '(q0, dD0) := p0 in
  let '(q1, dD1) := p1 in
  let q := if l_log
           then map np_exp (linspace (np_log (val q0)) (np_log (val q1)))
           else linspace (val q0) (val q1) in
  bind (py_div (py_sub (py_mul dD1 q1) (py_mul dD0 q0)) (py_sub q1 q0))
    (fun dDf =>
       let c := py_mul q0 (py_sub dD0 dDf) in
       let dD := map (fun qi => val c * (1 / qi) + val dDf) q in
       Ok (q, dD)).

(** [return cs] at the end of a plot adapter: the local is bound only if the
    loop body ran. *)
Definition return_local (cs : option line) : plotM line :=
  match cs with
  | Some h => ret h
  | None => raise UnboundLocalError
  end.

Definition T_g_plot : option value := Some (VNum (PyFloat (-10))).

(** The loop of [plot_rayleigh]; [cs_rl] is the local variable. *)
Fixpoint plot_rayleigh_loop (rl_list : list (value * value * value))
    (lwf : scalar) (c : string) (cs_rl : option line) : plotM (option line) :=
  match rl_list with
  | [] => ret cs_rl
  | (rl0, rl1, rl2) :: rest =>
      r <- lift (calc_rayleigh rl0 rl1 rl2 None T_g_plot) ;;
      let '(h2o_rl, dD_rl, d18_rl, t_rl, p_rl) := r in
      h <- ax_plot h2o_rl dD_rl c (0%Z, [1; 1]%Z)
             (py_mul (PyFloat 4.5) lwf) "Rayleigh" ;;
      plot_rayleigh_loop rest lwf c (Some h)
  end.

(** def plot_rayleigh(ax, rl_list = None, lwf = 1, t = None, rh = None,
    dD0 = None, c = 'dimgray') *)
Definition plot_rayleigh (rl_list : option (list (value * value * value)))
    (lwf : scalar) (t rh dD0 : value) (c : string) : plotM line :=
  let rl_list :=
    match rl_list with
    | None =>
        if is_none t && is_none rh && is_none dD0
        then [ (VNum (PyFloat 30), VNum (PyFloat 90), VNum (PyFloat (-80))) ]
        else [ (t, rh, dD0) ]
    | Some l => l
    end in
  cs_rl <- plot_rayleigh_loop rl_list lwf c None ;;
  return_local cs_rl.

(** The loop of [plot_superrayleigh] over [enumerate(srl_list)]. *)
Fixpoint plot_superrayleigh_loop (sx : nat)
    (srl_list : list (value * value * value * value))
    (lwf : scalar) (c : string) (lxl : option (list Z))
    (cs_srl : option line) : plotM (option line) :=
  match srl_list with
  | [] => ret cs_srl
  | (srl0, srl1, srl2, srl3) :: rest =>
      lx <- lift (match lxl with
                  | None => Ok (if Nat.eqb sx 0 then 100%Z else 130%Z)
                  | Some l => index l sx
                  end) ;;
      r <- lift (calc_rayleigh srl0 srl1 srl2 (Some srl3) T_g_plot) ;;
      let '(h2o_sr, dD_sr, _, _, _) := r in
      h <- ax_plot (slice_to lx h2o_sr) (slice_to lx dD_sr) c
             (0%Z, [3; 1; 1; 1; 1; 1]%Z)
             (py_mul (PyFloat 4.5) lwf) "Super-Rayleigh" ;;
      plot_superrayleigh_loop (S sx) rest lwf c lxl (Some h)
  end.

(** def plot_superrayleigh(ax, srl_list = None, lwf = 1, c = 'gray',
    lxl = None); the literal [1.3] is the binary64 value nearest to it. *)
Definition plot_superrayleigh
    (srl_list : option (list (value * value * value * value)))
    (lwf : scalar) (c : string) (lxl : option (list Z)) : plotM line :=
  let srl_list :=
    match srl_list with
    | None =>
        [ (VNum (PyFloat 13), VNum (PyFloat 80), VNum (PyFloat (-175)),
           VNum (PyFloat 1.5));
          (VNum (PyFloat 22), VNum (PyFloat 100), VNum (PyFloat (-110)),
           VNum (PyFloat 0x1.4cccccccccccdp+0)) ]
    | Some l => l
    end in
  cs_srl <- plot_superrayleigh_loop 0 srl_list lwf c lxl None ;;
  return_local cs_srl.

(** The loop of [plot_mixing]. *)
Fixpoint plot_mixing_loop
    (mx_list : list ((scalar * scalar) * (scalar * scalar)))
    (lwf : scalar) (c : string) (cs_mx : option line) : plotM (option line) :=
  match mx_list with
  | [] => ret cs_mx
  | (mx0, mx1) :: rest =>
      r <- lift (calc_mixing mx0 mx1 true) ;;
      let '(h2o_mx, dD_mx) := r in
      h <- ax_plot h2o_mx dD_mx c (0%Z, [3; 1]%Z)
             (py_mul (PyFloat 4) lwf) "mixing" ;;
      plot_mixing_loop rest lwf c (Some h)
  end.

(** def plot_mixing(ax, mx_list = None, lwf = 1, c = 'gray') *)
Definition plot_mixing
    (mx_list : option (list ((scalar * scalar) * (scalar * scalar))))
    (lwf : scalar) (c : string) : plotM line :=
  let mx_list :=
    match mx_list with
    | None =>
        [ ((PyFloat 50, PyFloat (-700)), (PyFloat 15300, PyFloat (-150)));
          ((PyFloat 1000, PyFloat (-450)), (PyFloat 22000, PyFloat (-120))) ]
    | Some l => l
    end in
  cs_mx <- plot_mixing_loop mx_list lwf c None ;;
  return_local cs_mx.

(** ** The equilibrium model in binary64 *)

(** The exponent as the specification writes it, in binary64:
    24844/T^2 - 76.248/T + 0.05261. *)
Definition exponent (x : float) : float :=
  24844 / (x * x) - lit_76_248 / x + lit_0_05261.

(** A finite Python float whose square overflows. *)
Definition square_overflows (T : scalar) : bool :=
  is_python T && is_finite (val T) && is_infinity (val T * val T).

(** A Python float whose square is a zero. *)
Definition square_is_zero (T : scalar) : bool :=
  is_python T && is_zero (val T * val T).

Lemma aeq_eval (T : scalar) :
  aeq T =
  if square_overflows T then Raise OverflowError
  else if square_is_zero T then Raise ZeroDivisionError
  else Ok (NpFloat64 (1 / np_exp (exponent (val T)))).
Proof.
  unfold square_overflows, square_is_zero.
  destruct T as [x|x]; [|reflexivity].
  unfold aeq, py_pow2. cbn [is_python val andb].
  destruct (is_finite x && is_infinity (x * x)); [reflexivity|].
  cbn [bind]. unfold py_div at 1. cbn [is_python val andb].
  destruct (is_zero (x * x)) eqn:Z; [reflexivity|].
  cbn [bind]. unfold py_div. cbn [is_python val andb].
  destruct (is_zero x) eqn:Zx.
  - apply mul_self_zero in Zx. congruence.
  - reflexivity.
Qed.



(** When [np.exp] overflows the value is 0.0, as at T = 1 Kelvin where the
    exponent is about 24768. *)
Lemma aeq_zero_when_exp_overflows (T : scalar) :
  square_overflows T = false -> square_is_zero T = false ->
  np_exp (exponent (val T)) = infinity ->
  aeq T = Ok (NpFloat64 0).
Proof.
  intros Ho Hz He. rewrite aeq_eval, Ho, Hz, He. reflexivity.
Qed.

(** ** The Rayleigh adapter *)

(** C8: [calc_rayleigh] returns exactly what [RayleighTropen] returns on
    (T0, rh0, dD0, f, T_g), in that order, with f = 1 and T_g = -30 when
    they are omitted; nothing is done to the generator's five sequences. *)
Theorem calc_rayleigh_passthrough (T0 rh0 dD0 f T_g : value) :
  calc_rayleigh T0 rh0 dD0 (Some f) (Some T_g)
    = RayleighTropen T0 rh0 dD0 f T_g /\
  calc_rayleigh T0 rh0 dD0 (Some f) None
    = RayleighTropen T0 rh0 dD0 f (VNum (PyFloat (-30))) /\
  calc_rayleigh T0 rh0 dD0 None (Some T_g)
    = RayleighTropen T0 rh0 dD0 (VNum (PyFloat 1)) T_g /\
  calc_rayleigh T0 rh0 dD0 None None
    = RayleighTropen T0 rh0 dD0 (VNum (PyFloat 1)) (VNum (PyFloat (-30))).
Proof. repeat split. Qed.

(** ** The plot adapters on an empty list *)

(** C10: called with an explicitly supplied empty list, each of
    [plot_rayleigh], [plot_superrayleigh] and [plot_mixing] leaves the axis
    as it was and raises UnboundLocalError instead of returning a handle. *)
Theorem plot_empty_list_unbound (ax : axis) (lwf : scalar) (c : string)
    (t rh dD0 : value) (lxl : option (list Z)) :
  plot_rayleigh (Some []) lwf t rh dD0 c ax = (ax, Raise UnboundLocalError) /\
  plot_superrayleigh (Some []) lwf c lxl ax = (ax, Raise UnboundLocalError) /\
  plot_mixing (Some []) lwf c ax = (ax, Raise UnboundLocalError).
Proof. repeat split. Qed.

(** ** The Rayleigh overlay on a non-empty list *)

Lemma last_cons_default {A : Type} (a : A) (l : list A) (d : A) :
  last (a :: l) d = last l a.
Proof.
  revert a d. induction l as [|b l IH]; intros a d; [reflexivity|].
  change (last (a :: b :: l) d) with (last (b :: l) d).
  rewrite !IH. reflexivity.
Qed.

Lemma last_app_cons {A : Type} (l1 : list A) (a : A) (l2 : list A) (d : A) :
  last (l1 ++ a :: l2) d = last l2 a.
Proof.
  revert d. induction l1 as [|x l1 IH]; intros d; cbn [app].
  - apply last_cons_default.
  - rewrite last_cons_default. apply IH.
Qed.

(** The handle left in the local after the loop drew [new]. *)
Definition last_handle (new : list line) (cs : option line) : option line :=
  last (map Some new) cs.

Lemma last_handle_cons (h : line) (new : list line) (cs : option line) :
  last_handle (h :: new) cs = last_handle new (Some h).
Proof. unfold last_handle. cbn [map]. apply last_cons_default. Qed.

Lemma last_handle_some (new : list line) (h : line) :
  last_handle new (Some h) = Some (last new h).
Proof.
  revert h. induction new as [|a new IH]; intros h; [reflexivity|].
  rewrite last_handle_cons, last_cons_default. apply IH.
Qed.

(** The line [plot_rayleigh] draws from one result of the generator. *)
Definition rayleigh_line (lwf : scalar) (c : string) (r : curves) : line :=
  let '(h2o_rl, dD_rl, _, _, _) := r in
  mkLine h2o_rl dD_rl c (0%Z, [1; 1]%Z) (py_mul (PyFloat 4.5) lwf) "Rayleigh".

(** The generator call [plot_rayleigh] makes for one entry: f is left at
    its default 1 and T_g is -10. *)
Definition rayleigh_call (rl : value * value * value) : result curves :=
  let '(rl0, rl1, rl2) := rl in
  RayleighTropen rl0 rl1 rl2 (VNum (PyFloat 1)) (VNum (PyFloat (-10))).

Lemma plot_rayleigh_loop_cons (rl : value * value * value)
    (rest : list (value * value * value)) (lwf : scalar) (c : string)
    (cs : option line) (ax : axis) :
  plot_rayleigh_loop (rl :: rest) lwf c cs ax =
  match rayleigh_call rl with
  | Ok r =>
      plot_rayleigh_loop rest lwf c (Some (rayleigh_line lwf c r))
        (ax ++ [rayleigh_line lwf c r])
  | Raise e => (ax, Raise e)
  end.
Proof.
  destruct rl as [[rl0 rl1] rl2].
  cbn [plot_rayleigh_loop rayleigh_call]. unfold bindM, lift, calc_rayleigh.
  cbn [default T_g_plot].
  destruct (RayleighTropen _ _ _ _ _) as [[[[[h2o dD] d18] t] p]|e];
    reflexivity.
Qed.

Lemma plot_rayleigh_loop_ok (g : value * value * value -> curves)
    (lwf : scalar) (c : string) (l : list (value * value * value)) :
  (forall rl, In rl l -> rayleigh_call rl = Ok (g rl)) ->
  forall cs ax,
    plot_rayleigh_loop l lwf c cs ax =
    (ax ++ map (fun rl => rayleigh_line lwf c (g rl)) l,
     Ok (last_handle (map (fun rl => rayleigh_line lwf c (g rl)) l) cs)).
Proof.
  induction l as [|rl l IH]; intros Hg cs ax.
  - cbn. now rewrite app_nil_r.
  - rewrite plot_rayleigh_loop_cons, (Hg rl) by now left.
    rewrite IH by (intros x Hx; apply Hg; now right).
    cbn [map]. now rewrite <- app_assoc, last_handle_cons.
Qed.

Lemma plot_rayleigh_loop_frame (lwf : scalar) (c : string)
    (l : list (value * value * value)) :
  forall cs ax, exists new r,
    plot_rayleigh_loop l lwf c cs ax = (ax ++ new, r) /\
    match r with
    | Ok cs' => length new = length l /\ cs' = last_handle new cs
    | Raise _ => (length new < length l)%nat
    end.
Proof.
  induction l as [|rl l IH]; intros cs ax.
  - exists [], (Ok cs). cbn. now rewrite app_nil_r.
  - rewrite plot_rayleigh_loop_cons.
    destruct (rayleigh_call rl) as [r|e].
    + destruct (IH (Some (rayleigh_line lwf c r)) (ax ++ [rayleigh_line lwf c r]))
        as (new & r' & E & H).
      exists (rayleigh_line lwf c r :: new), r'. rewrite E, <- app_assoc.
      split; [reflexivity|]. destruct r' as [cs'|e'].
      * destruct H as [Hl ->]. cbn [length]. rewrite last_handle_cons.
        split; [lia | reflexivity].
      * cbn [length]. lia.
    + exists [], (Raise e). rewrite app_nil_r. split; [reflexivity|].
      cbn [length]. lia.
Qed.

(** The curves [plot_rayleigh] works on: the list given, or the one entry
    built from t, rh, dD0 and the defaults. *)
Definition rayleigh_entries (rl_list : option (list (value * value * value)))
    (t rh dD0 : value) : list (value * value * value) :=
  match rl_list with
  | None =>
      if is_none t && is_none rh && is_none dD0
      then [ (VNum (PyFloat 30), VNum (PyFloat 90), VNum (PyFloat (-80))) ]
      else [ (t, rh, dD0) ]
  | Some l => l
  end.

(** X10: whatever the generator does, [plot_rayleigh] only appends to the
    axis, at most one line per entry; when it returns a handle it has drawn
    one line for every entry and the handle is the last line on the axis. *)
Theorem plot_rayleigh_appends
    (rl_list : option (list (value * value * value)))
    (lwf : scalar) (t rh dD0 : value) (c : string) (ax : axis) :
  exists new r,
    plot_rayleigh rl_list lwf t rh dD0 c ax = (ax ++ new, r) /\
    (length new <= length (rayleigh_entries rl_list t rh dD0))%nat /\
    match r with
    | Ok h =>
        length new = length (rayleigh_entries rl_list t rh dD0) /\
        new <> [] /\ last new h = h /\ last (ax ++ new) h = h
    | Raise _ => True
    end.
Proof.
  unfold plot_rayleigh. fold (rayleigh_entries rl_list t rh dD0).
  set (l := rayleigh_entries rl_list t rh dD0).
  destruct (plot_rayleigh_loop_frame lwf c l None ax) as (new & r & E & H).
  unfold bindM. rewrite E. destruct r as [cs'|e].
  - destruct H as [Hl ->]. destruct new as [|h new].
    + exists [], (Raise UnboundLocalError). cbn. rewrite <- Hl.
      repeat split. cbn. lia.
    + rewrite last_handle_cons, last_handle_some.
      exists (h :: new), (Ok (last new h)). cbn [return_local ret].
      split; [reflexivity|]. split; [lia|]. split; [exact Hl|].
      split; [discriminate|].
      assert (Hlast : forall d, last (h :: new) d = last new h)
        by (intros d; apply last_cons_default).
      split; [apply Hlast|].
      apply last_app_cons.
  - exists new, (Raise e). split; [reflexivity|]. split; [lia | exact I].
Qed.

(** X11: when the generator returns on every entry of a non-empty list,
    [plot_rayleigh] calls it with (T0, RH0, dD0, 1, -10) for each entry in
    order, appends one dotted line of (h2o, dD) per entry, and returns the
    line of the last entry. *)
Theorem plot_rayleigh_draws (g : value * value * value -> curves)
    (l : list (value * value * value)) (rl_last : value * value * value)
    (lwf : scalar) (t rh dD0 : value) (c : string) (ax : axis) :
  (forall rl, In rl (l ++ [rl_last]) -> rayleigh_call rl = Ok (g rl)) ->
  plot_rayleigh (Some (l ++ [rl_last])) lwf t rh dD0 c ax =
  (ax ++ map (fun rl => rayleigh_line lwf c (g rl)) (l ++ [rl_last]),
   Ok (rayleigh_line lwf c (g rl_last))).
Proof.
  intros Hg. unfold plot_rayleigh, bindM.
  rewrite (plot_rayleigh_loop_ok g) by exact Hg.
  rewrite map_app. cbn [map]. unfold last_handle.
  rewrite map_app. cbn [map]. now rewrite last_last.
Qed.

(** X12: when the generator raises on an entry after returning on the
    entries before it, [plot_rayleigh] raises the same exception; the lines
    of the earlier entries stay on the axis and the later entries are not
    drawn. *)
Theorem plot_rayleigh_propagates (g : value * value * value -> curves)
    (l1 l2 : list (value * value * value)) (rl : value * value * value)
    (e : exn) (lwf : scalar) (t rh dD0 : value) (c : string) (ax : axis) :
  (forall x, In x l1 -> rayleigh_call x = Ok (g x)) ->
  rayleigh_call rl = Raise e ->
  plot_rayleigh (Some (l1 ++ rl :: l2)) lwf t rh dD0 c ax =
  (ax ++ map (fun x => rayleigh_line lwf c (g x)) l1, Raise e).
Proof.
  intros Hg He. unfold plot_rayleigh, bindM.
  assert (E : forall cs ax0,
             plot_rayleigh_loop (l1 ++ rl :: l2) lwf c cs ax0 =
             (ax0 ++ map (fun x => rayleigh_line lwf c (g x)) l1, Raise e)).
  { clear ax. induction l1 as [|x l1 IH]; intros cs ax0.
    - cbn [app map]. rewrite plot_rayleigh_loop_cons, He.
      now rewrite app_nil_r.
    - cbn [app map]. rewrite plot_rayleigh_loop_cons, (Hg x) by now left.
      rewrite IH by (intros y Hy; apply Hg; now right).
      now rewrite <- app_assoc. }
  now rewrite E.
Qed.

(** The single entry [plot_rayleigh] builds when [rl_list] is omitted. *)
Definition rayleigh_default_entry (t rh dD0 : value)
    : value * value * value :=
  if is_none t && is_none rh && is_none dD0
  then (VNum (PyFloat 30), VNum (PyFloat 90), VNum (PyFloat (-80)))
  else (t, rh, dD0).

(** X19: with [rl_list] omitted [plot_rayleigh] calls the generator exactly
    once: on (30, 90, -80) when t, rh and dD0 are all omitted, otherwise on
    (t, rh, dD0) as given, an omitted one passed as None.  It draws and
    returns that one line, or raises what the generator raised with the
    axis untouched. *)
Theorem plot_rayleigh_default (lwf : scalar) (t rh dD0 : value) (c : string)
    (ax : axis) :
  plot_rayleigh None lwf t rh dD0 c ax =
  match rayleigh_call (rayleigh_default_entry t rh dD0) with
  | Ok r => (ax ++ [rayleigh_line lwf c r], Ok (rayleigh_line lwf c r))
  | Raise e => (ax, Raise e)
  end.
Proof.
  unfold plot_rayleigh, bindM, rayleigh_default_entry.
  destruct (is_none t && is_none rh && is_none dD0);
    rewrite plot_rayleigh_loop_cons;
    destruct (rayleigh_call _) as [r|e]; reflexivity.
Qed.

(** ** The super-Rayleigh overlay *)

(** The truncation length of entry [sx]: 100 for the first entry and 130 for
    the others when [lxl] is omitted, otherwise [lxl[sx]]. *)
Definition truncation (lxl : option (list Z)) (sx : nat) : result Z :=
  match lxl with
  | None => Ok (if Nat.eqb sx 0 then 100%Z else 130%Z)
  | Some l => index l sx
  end.

Definition superrayleigh_call (srl : value * value * value * value)
    : result curves :=
  let '(srl0, srl1, srl2, srl3) := srl in
  RayleighTropen srl0 srl1 srl2 srl3 (VNum (PyFloat (-10))).

Definition superrayleigh_line (lwf : scalar) (c : string) (lx : Z)
    (r : curves) : line :=
  let '(h2o_sr, dD_sr, _, _, _) := r in
  mkLine (slice_to lx h2o_sr) (slice_to lx dD_sr) c
    (0%Z, [3; 1; 1; 1; 1; 1]%Z) (py_mul (PyFloat 4.5) lwf) "Super-Rayleigh".

Lemma plot_superrayleigh_loop_cons (sx : nat)
    (srl : value * value * value * value)
    (rest : list (value * value * value * value)) (lwf : scalar) (c : string)
    (lxl : option (list Z)) (cs : option line) (ax : axis) :
  plot_superrayleigh_loop sx (srl :: rest) lwf c lxl cs ax =
  match truncation lxl sx with
  | Raise e => (ax, Raise e)
  | Ok lx =>
      match superrayleigh_call srl with
      | Ok r =>
          plot_superrayleigh_loop (S sx) rest lwf c lxl
            (Some (superrayleigh_line lwf c lx r))
            (ax ++ [superrayleigh_line lwf c lx r])
      | Raise e => (ax, Raise e)
      end
  end.
Proof.
  destruct srl as [[[srl0 srl1] srl2] srl3].
  cbn [plot_superrayleigh_loop superrayleigh_call].
  unfold bindM, lift, calc_rayleigh. cbn [default T_g_plot].
  fold (truncation lxl sx). destruct (truncation lxl sx) as [lx|e];
    [|reflexivity].
  destruct (RayleighTropen _ _ _ _ _) as [[[[[h2o dD] d18] t] p]|e];
    reflexivity.
Qed.

Lemma slice_to_length (n : Z) (l : array) :
  (0 <= n)%Z -> (length (slice_to n l) <= Z.to_nat n)%nat.
Proof.
  intros Hn. unfold slice_to.
  destruct (Z.leb_spec 0 n); [|lia].
  rewrite length_firstn. lia.
Qed.

(** At most [n] samples on each axis of the line. *)
Definition at_most (n : nat) (ln : line) : Prop :=
  (length (xdata ln) <= n)%nat /\ (length (ydata ln) <= n)%nat.

Lemma superrayleigh_line_at_most (lwf : scalar) (c : string) (lx : Z)
    (r : curves) :
  (0 <= lx)%Z -> at_most (Z.to_nat lx) (superrayleigh_line lwf c lx r).
Proof.
  intros Hlx. destruct r as [[[[h2o dD] d18] t] p].
  split; cbn; now apply slice_to_length.
Qed.

Lemma plot_superrayleigh_loop_frame (lwf : scalar) (c : string)
    (lxl : option (list Z)) (l : list (value * value * value * value)) :
  forall sx cs ax, exists new r,
    plot_superrayleigh_loop sx l lwf c lxl cs ax = (ax ++ new, r) /\
    (lxl = None ->
     Forall (at_most 130) new /\
     (sx = 0%nat -> forall h rest, new = h :: rest -> at_most 100 h)) /\
    match r with
    | Ok cs' => length new = length l /\ cs' = last_handle new cs
    | Raise _ => (length new < length l)%nat
    end.
Proof.
  induction l as [|srl l IH]; intros sx cs ax.
  - exists [], (Ok cs). cbn. rewrite app_nil_r.
    split; [reflexivity|]. split; [|now split].
    intros _. split; [constructor | discriminate].
  - rewrite plot_superrayleigh_loop_cons.
    destruct (truncation lxl sx) as [lx|e] eqn:Et.
    2:{ exists [], (Raise e). rewrite app_nil_r.
        split; [reflexivity|]. split; [|cbn; lia].
        intros _. split; [constructor | discriminate]. }
    destruct (superrayleigh_call srl) as [r|e].
    2:{ exists [], (Raise e). rewrite app_nil_r.
        split; [reflexivity|]. split; [|cbn; lia].
        intros _. split; [constructor | discriminate]. }
    set (h0 := superrayleigh_line lwf c lx r).
    destruct (IH (S sx) (Some h0) (ax ++ [h0])) as (new & r' & E & Ht & H).
    exists (h0 :: new), r'. rewrite E, <- app_assoc.
    split; [reflexivity|]. split.
    + intros ->. destruct (Ht eq_refl) as [Hall _].
      cbn in Et. split.
      * constructor; [|exact Hall]. destruct (Nat.eqb sx 0);
          injection Et as <-; unfold h0.
        -- destruct (superrayleigh_line_at_most lwf c 100 r ltac:(lia))
             as [Hx Hy].
           split; cbn in Hx, Hy |- *; lia.
        -- apply (superrayleigh_line_at_most lwf c 130 r). lia.
      * intros -> h rest [= <- <-]. cbn in Et. injection Et as <-.
        apply (superrayleigh_line_at_most lwf c 100 r). lia.
    + destruct r' as [cs'|e'].
      * destruct H as [Hl ->]. cbn [length]. rewrite last_handle_cons.
        split; [lia | reflexivity].
      * cbn [length]. lia.
Qed.

Definition superrayleigh_entries
    (srl_list : option (list (value * value * value * value)))
    : list (value * value * value * value) :=
  match srl_list with
  | None =>
      [ (VNum (PyFloat 13), VNum (PyFloat 80), VNum (PyFloat (-175)),
         VNum (PyFloat 1.5));
        (VNum (PyFloat 22), VNum (PyFloat 100), VNum (PyFloat (-110)),
         VNum (PyFloat 0x1.4cccccccccccdp+0)) ]
  | Some l => l
  end.

(** X13: whatever the generator and [lxl] are, [plot_superrayleigh] only
    appends to the axis, at most one line per entry; when it returns a
    handle it has drawn one line for every entry and the handle is the last
    line on the axis. *)
Theorem plot_superrayleigh_appends
    (srl_list : option (list (value * value * value * value)))
    (lwf : scalar) (c : string) (lxl : option (list Z)) (ax : axis) :
  exists new r,
    plot_superrayleigh srl_list lwf c lxl ax = (ax ++ new, r) /\
    (length new <= length (superrayleigh_entries srl_list))%nat /\
    match r with
    | Ok h =>
        length new = length (superrayleigh_entries srl_list) /\
        new <> [] /\ last new h = h /\ last (ax ++ new) h = h
    | Raise _ => True
    end.
Proof.
  unfold plot_superrayleigh. fold (superrayleigh_entries srl_list).
  set (l := superrayleigh_entries srl_list).
  destruct (plot_superrayleigh_loop_frame lwf c lxl l 0 None ax)
    as (new & r & E & _ & H).
  unfold bindM. rewrite E. destruct r as [cs'|e].
  - destruct H as [Hl ->]. destruct new as [|h new].
    + exists [], (Raise UnboundLocalError). cbn. rewrite <- Hl.
      repeat split. cbn. lia.
    + rewrite last_handle_cons, last_handle_some.
      exists (h :: new), (Ok (last new h)). cbn [return_local ret].
      split; [reflexivity|]. split; [lia|]. split; [exact Hl|].
      split; [discriminate|].
      split; [apply last_cons_default | apply last_app_cons].
  - exists new, (Raise e). split; [reflexivity|]. split; [lia | exact I].
Qed.

(** X14: with [lxl] omitted, no line [plot_superrayleigh] draws has more
    than 130 samples, and the first has at most 100, however long the
    generator's curves are. *)
Theorem plot_superrayleigh_truncates
    (srl_list : option (list (value * value * value * value)))
    (lwf : scalar) (c : string) (ax : axis) :
  exists new r,
    plot_superrayleigh srl_list lwf c None ax = (ax ++ new, r) /\
    Forall (at_most 130) new /\
    (forall h rest, new = h :: rest -> at_most 100 h).
Proof.
  unfold plot_superrayleigh. fold (superrayleigh_entries srl_list).
  set (l := superrayleigh_entries srl_list).
  destruct (plot_superrayleigh_loop_frame lwf c None l 0 None ax)
    as (new & r & E & Ht & H).
  destruct (Ht eq_refl) as [Hall Hfirst].
  unfold bindM. rewrite E. destruct r as [cs'|e].
  - destruct (return_local cs' (ax ++ new)) as [ax' r'] eqn:Er.
    assert (ax' = ax ++ new) as ->.
    { destruct cs'; cbn in Er; now injection Er as <- _. }
    exists new, r'. split; [reflexivity|]. split; [exact Hall|].
    now apply Hfirst.
  - exists new, (Raise e). split; [reflexivity|]. split; [exact Hall|].
    now apply Hfirst.
Qed.

(** X15: when [lxl] has fewer elements than the list has entries and the
    generator returns on the entries that [lxl] covers, [plot_superrayleigh]
    draws those entries, each truncated to its own length, and then raises
    IndexError. *)
Theorem plot_superrayleigh_short_lxl
    (g : value * value * value * value -> curves)
    (l1 l2 : list (value * value * value * value))
    (srl : value * value * value * value) (lxs : list Z)
    (lwf : scalar) (c : string) (ax : axis) :
  length lxs = length l1 ->
  (forall x, In x l1 -> superrayleigh_call x = Ok (g x)) ->
  plot_superrayleigh (Some (l1 ++ srl :: l2)) lwf c (Some lxs) ax =
  (ax ++ map (fun p => superrayleigh_line lwf c (snd p) (g (fst p)))
            (combine l1 lxs),
   Raise IndexError).
Proof.
  intros Hlen Hg. unfold plot_superrayleigh, bindM.
  assert (E : forall pre post cs ax0,
             lxs = pre ++ post -> length post = length l1 ->
             (forall x, In x l1 -> superrayleigh_call x = Ok (g x)) ->
             plot_superrayleigh_loop (length pre) (l1 ++ srl :: l2) lwf c
               (Some lxs) cs ax0 =
             (ax0 ++ map (fun p => superrayleigh_line lwf c (snd p) (g (fst p)))
                       (combine l1 post),
              Raise IndexError)).
  { clear ax Hlen Hg. induction l1 as [|x l1 IH];
      intros pre post cs ax0 -> Hlen Hg.
    - destruct post; [|discriminate Hlen]. cbn [app combine map].
      rewrite plot_superrayleigh_loop_cons. unfold truncation, index.
      rewrite !app_nil_r.
      replace (nth_error pre (length pre)) with (@None Z)
        by (symmetry; apply nth_error_None; lia).
      reflexivity.
    - destruct post as [|lx post]; [discriminate Hlen|].
      cbn [app combine map fst snd].
      rewrite plot_superrayleigh_loop_cons. unfold truncation, index.
      rewrite nth_error_app2 by lia. rewrite Nat.sub_diag. cbn [nth_error].
      rewrite (Hg x) by now left.
      replace (S (length pre)) with (length (pre ++ [lx]))
        by (rewrite length_app; cbn; lia).
      rewrite (IH (pre ++ [lx]) post).
      + now rewrite <- app_assoc.
      + now rewrite <- app_assoc.
      + cbn in Hlen. lia.
      + intros y Hy. apply Hg. now right. }
  pose proof (E [] lxs None ax eq_refl Hlen Hg) as E0.
  cbn [length] in E0. now rewrite E0.
Qed.

(** ** Equal mixing-ratio endpoints *)

Definition all_python (q0 dD0 q1 dD1 : scalar) : bool :=
  is_python q0 && is_python dD0 && is_python q1 && is_python dD1.

Lemma calc_mixing_python_raises (q0 dD0 q1 dD1 : scalar) (l_log : bool) :
  all_python q0 dD0 q1 dD1 = true ->
  is_zero (val q1 - val q0) = true ->
  calc_mixing (q0, dD0) (q1, dD1) l_log = Raise ZeroDivisionError.
Proof.
  unfold all_python. intros Hp Hz.
  destruct q0, dD0, q1, dD1; try discriminate Hp.
  cbn in Hz |- *. unfold py_div. cbn. now rewrite Hz.
Qed.

Lemma calc_mixing_numpy_returns (q0 dD0 q1 dD1 : scalar) (l_log : bool) :
  all_python q0 dD0 q1 dD1 = false ->
  is_zero (val q1 - val q0) = true ->
  exists q dD,
    calc_mixing (q0, dD0) (q1, dD1) l_log = Ok (q, dD) /\
    length q = 50%nat /\ length dD = 50%nat /\
    Forall (fun x => nan_or_inf x = true) dD.
Proof.
  intros Hp Hz. cbn [calc_mixing].
  set (q := if l_log then _ else _).
  assert (Hq : length q = 50%nat).
  { unfold q. destruct l_log; [rewrite length_map|]; apply linspace_float_length. }
  set (n := py_sub (py_mul dD1 q1) (py_mul dD0 q0)).
  set (d := py_sub q1 q0).
  assert (Hd : val d = val q1 - val q0) by (destruct q0, q1; reflexivity).
  assert (Hpy : is_python n && is_python d = false).
  { unfold all_python in Hp. destruct q0, dD0, q1, dD1; try discriminate Hp;
      reflexivity. }
  unfold py_div. rewrite Hpy. cbn [andb bind].
  eexists _, _. split; [reflexivity|].
  split; [exact Hq|]. split; [now rewrite length_map|].
  apply Forall_map, Forall_forall. intros qi _.
  apply nan_or_inf_intro, add_not_finite.
  replace (val (retag n d (val n / val d))) with (val n / val d)
    by (unfold retag; now destruct (_ && _)).
  apply div_zero_not_finite. now rewrite Hd.
Qed.

(** ** The mixing overlay on a non-empty list *)

(** A pair whose division by q1 - q0 raises: four Python floats with
    q1 - q0 a zero. *)
Definition degenerate (mx : (scalar * scalar) * (scalar * scalar)) : bool :=
  let '((q0, dD0), (q1, dD1)) := mx in
  all_python q0 dD0 q1 dD1 && is_zero (val q1 - val q0).

Lemma calc_mixing_defined (mx : (scalar * scalar) * (scalar * scalar))
    (l_log : bool) :
  degenerate mx = false ->
  exists q dD,
    calc_mixing (fst mx) (snd mx) l_log = Ok (q, dD) /\
    length q = 50%nat /\ length dD = 50%nat.
Proof.
  destruct mx as [[q0 dD0] [q1 dD1]]. cbn [degenerate fst snd]. intros E.
  cbn [calc_mixing].
  set (q := if l_log then _ else _).
  assert (Hq : length q = 50%nat).
  { unfold q. destruct l_log; [rewrite length_map|];
      apply linspace_float_length. }
  assert (Hd : py_div (py_sub (py_mul dD1 q1) (py_mul dD0 q0)) (py_sub q1 q0)
               <> Raise ZeroDivisionError).
  { unfold py_div, all_python in *.
    destruct q0, dD0, q1, dD1; cbn in E |- *; try discriminate.
    rewrite E. discriminate. }
  unfold py_div in *. destruct (_ && _ && _); [congruence|].
  cbn [bind]. eexists _, _. split; [reflexivity|].
  split; [exact Hq | now rewrite length_map].
Qed.

Lemma calc_mixing_degenerate (mx : (scalar * scalar) * (scalar * scalar))
    (l_log : bool) :
  degenerate mx = true ->
  calc_mixing (fst mx) (snd mx) l_log = Raise ZeroDivisionError.
Proof.
  destruct mx as [[q0 dD0] [q1 dD1]]. cbn [degenerate fst snd]. intros E.
  apply andb_prop in E as [Hp Hz]. now apply calc_mixing_python_raises.
Qed.

Definition mixing_line (lwf : scalar) (c : string) (r : array * array)
    : line :=
  let '(h2o_mx, dD_mx) := r in
  mkLine h2o_mx dD_mx c (0%Z, [3; 1]%Z) (py_mul (PyFloat 4) lwf) "mixing".

(** What every line of the mixing overlay looks like. *)
Definition mixing_styled (lwf : scalar) (c : string) (ln : line) : Prop :=
  length (xdata ln) = 50%nat /\ length (ydata ln) = 50%nat /\
  color ln = c /\ dashes ln = (0%Z, [3; 1]%Z) /\
  linewidth ln = py_mul (PyFloat 4) lwf /\ label ln = "mixing"%string.

Lemma plot_mixing_loop_cons (mx : (scalar * scalar) * (scalar * scalar))
    (rest : list ((scalar * scalar) * (scalar * scalar)))
    (lwf : scalar) (c : string) (cs : option line) (ax : axis) :
  plot_mixing_loop (mx :: rest) lwf c cs ax =
  match calc_mixing (fst mx) (snd mx) true with
  | Ok r =>
      plot_mixing_loop rest lwf c (Some (mixing_line lwf c r))
        (ax ++ [mixing_line lwf c r])
  | Raise e => (ax, Raise e)
  end.
Proof.
  destruct mx as [mx0 mx1]. cbn [plot_mixing_loop fst snd].
  unfold bindM, lift.
  destruct (calc_mixing mx0 mx1 true) as [[h2o dD]|e]; reflexivity.
Qed.

Definition all_distinct (l : list ((scalar * scalar) * (scalar * scalar)))
    : bool :=
  forallb (fun mx => negb (degenerate mx)) l.

Lemma plot_mixing_loop_ok (lwf : scalar) (c : string)
    (l : list ((scalar * scalar) * (scalar * scalar))) :
  all_distinct l = true ->
  forall cs ax, exists new,
    plot_mixing_loop l lwf c cs ax = (ax ++ new, Ok (last_handle new cs)) /\
    length new = length l /\ Forall (mixing_styled lwf c) new.
Proof.
  induction l as [|mx l IH]; intros Hd cs ax.
  - exists []. cbn. rewrite app_nil_r. repeat split. constructor.
  - cbn [all_distinct forallb] in Hd. apply andb_prop in Hd as [Hmx Hl].
    apply negb_true_iff in Hmx.
    destruct (calc_mixing_defined mx true Hmx) as (q & dD & E & Hq & HdD).
    rewrite plot_mixing_loop_cons, E.
    destruct (IH Hl (Some (mixing_line lwf c (q, dD)))
                (ax ++ [mixing_line lwf c (q, dD)])) as (new & E' & Hn & Hs).
    exists (mixing_line lwf c (q, dD) :: new).
    rewrite E', <- app_assoc, last_handle_cons.
    split; [reflexivity|]. split; [cbn; lia|].
    constructor; [|exact Hs]. repeat split; assumption.
Qed.

(** X16: when no pair of a non-empty list is degenerate, [plot_mixing]
    returns a handle: it appends one line per pair, each with 50 samples on
    both axes and the mixing style, and the handle is the last of them. *)
Theorem plot_mixing_draws
    (l : list ((scalar * scalar) * (scalar * scalar)))
    (mx_last : (scalar * scalar) * (scalar * scalar))
    (lwf : scalar) (c : string) (ax : axis) :
  all_distinct (l ++ [mx_last]) = true ->
  exists new h,
    plot_mixing (Some (l ++ [mx_last])) lwf c ax = (ax ++ new, Ok h) /\
    length new = S (length l) /\ last new h = h /\
    Forall (mixing_styled lwf c) new.
Proof.
  intros Hd. unfold plot_mixing, bindM.
  destruct (plot_mixing_loop_ok lwf c (l ++ [mx_last]) Hd None ax)
    as (new & E & Hn & Hs).
  rewrite E. rewrite length_app in Hn. cbn in Hn.
  destruct new as [|h new]; [cbn in Hn; lia|].
  rewrite last_handle_cons, last_handle_some.
  exists (h :: new), (last new h). cbn [return_local ret].
  split; [reflexivity|]. split; [lia|].
  split; [apply last_cons_default | exact Hs].
Qed.

(** X17: the first degenerate pair of the list stops [plot_mixing] with
    ZeroDivisionError; the lines of the pairs before it stay on the axis
    and the pairs after it are not drawn. *)
Theorem plot_mixing_degenerate_pair
    (l1 l2 : list ((scalar * scalar) * (scalar * scalar)))
    (mx : (scalar * scalar) * (scalar * scalar))
    (lwf : scalar) (c : string) (ax : axis) :
  all_distinct l1 = true ->
  degenerate mx = true ->
  exists new,
    plot_mixing (Some (l1 ++ mx :: l2)) lwf c ax
      = (ax ++ new, Raise ZeroDivisionError) /\
    length new = length l1 /\ Forall (mixing_styled lwf c) new.
Proof.
  intros Hd Hmx. unfold plot_mixing, bindM.
  assert (E : forall cs ax0, exists new,
             plot_mixing_loop (l1 ++ mx :: l2) lwf c cs ax0
               = (ax0 ++ new, Raise ZeroDivisionError) /\
             length new = length l1 /\ Forall (mixing_styled lwf c) new).
  { clear ax. induction l1 as [|x l1 IH]; intros cs ax0.
    - exists []. cbn [app]. rewrite plot_mixing_loop_cons.
      rewrite (calc_mixing_degenerate mx true Hmx), app_nil_r.
      repeat split. constructor.
    - cbn [all_distinct forallb] in Hd. apply andb_prop in Hd as [Hx Hl].
      apply negb_true_iff in Hx.
      destruct (calc_mixing_defined x true Hx) as (q & dD & Ex & Hq & HdD).
      cbn [app]. rewrite plot_mixing_loop_cons, Ex.
      destruct (IH Hl (Some (mixing_line lwf c (q, dD)))
                  (ax0 ++ [mixing_line lwf c (q, dD)])) as (new & E' & Hn & Hs).
      exists (mixing_line lwf c (q, dD) :: new). rewrite E', <- app_assoc.
      split; [reflexivity|]. split; [cbn; lia|].
      constructor; [|exact Hs]. repeat split; assumption. }
  destruct (E None ax) as (new & E' & Hn & Hs).
  exists new. now rewrite E'.
Qed.

(** C4 (amended): for every pair of endpoints and both spacing modes
    [calc_mixing] returns two sequences q and dD of length 50 each, except
    when the four endpoint numbers are Python floats and q1 - q0 is a zero:
    then it raises ZeroDivisionError and returns nothing. *)
Theorem calc_mixing_lengths (q0 dD0 q1 dD1 : scalar) (l_log : bool) :
  if all_python q0 dD0 q1 dD1 && is_zero (val q1 - val q0)
  then calc_mixing (q0, dD0) (q1, dD1) l_log = Raise ZeroDivisionError
  else exists q dD,
    calc_mixing (q0, dD0) (q1, dD1) l_log = Ok (q, dD) /\
    length q = 50%nat /\ length dD = 50%nat.
Proof.
  destruct (all_python q0 dD0 q1 dD1 && is_zero (val q1 - val q0)) eqn:E.
  - exact (calc_mixing_degenerate ((q0, dD0), (q1, dD1)) l_log E).
  - exact (calc_mixing_defined ((q0, dD0), (q1, dD1)) l_log E).
Qed.

(** X18: [calc_mixing] raises exactly when the four endpoint numbers are
    Python floats and q1 - q0 is a zero, and the exception is then
    ZeroDivisionError; it returns, two sequences of 50 samples each,
    exactly on all other inputs. *)
Theorem calc_mixing_returns_or_raises (q0 dD0 q1 dD1 : scalar)
    (l_log : bool) :
  ((exists e, calc_mixing (q0, dD0) (q1, dD1) l_log = Raise e) <->
   all_python q0 dD0 q1 dD1 && is_zero (val q1 - val q0) = true) /\
  (forall e, calc_mixing (q0, dD0) (q1, dD1) l_log = Raise e ->
             e = ZeroDivisionError) /\
  ((exists q dD,
      calc_mixing (q0, dD0) (q1, dD1) l_log = Ok (q, dD) /\
      length q = 50%nat /\ length dD = 50%nat) <->
   all_python q0 dD0 q1 dD1 && is_zero (val q1 - val q0) = false).
Proof.
  pose proof (calc_mixing_degenerate ((q0, dD0), (q1, dD1)) l_log) as Hr.
  pose proof (calc_mixing_defined ((q0, dD0), (q1, dD1)) l_log) as Hd.
  cbn [degenerate fst snd] in Hr, Hd.
  destruct (all_python q0 dD0 q1 dD1 && is_zero (val q1 - val q0)).
  - specialize (Hr eq_refl). rewrite Hr. repeat split.
    + now exists ZeroDivisionError.
    + now intros e [= <-].
    + now intros (q & dD & [=] & _).
    + discriminate.
  - destruct (Hd eq_refl) as (q & dD & E & Hq & HdD). rewrite E.
    repeat split.
    + now intros [e [=]].
    + discriminate.
    + discriminate.
    + now exists q, dD.
Qed.

(** With its default pairs, whose endpoints differ, [plot_mixing] draws two
    lines and returns the second. *)
Lemma plot_mixing_default_draws (lwf : scalar) (c : string) :
  exists h1 h2,
    plot_mixing None lwf c [] = ([h1; h2], Ok h2) /\
    label h2 = "mixing"%string /\ length (ydata h2) = 50%nat.
Proof.
  eexists _, _. split; [reflexivity|]. split; [reflexivity|].
  cbn [ydata]. now rewrite length_map, length_map, linspace_float_length.
Qed.

(** C9 (amended): with equal finite endpoints q0 == q1, [calc_mixing]
    raises ZeroDivisionError when the four endpoint numbers are Python
    floats; when one of them is a NumPy float64 it returns two sequences of
    50 samples, and every dD sample is NaN or an infinity. *)
Theorem calc_mixing_equal_endpoints (q0 dD0 q1 dD1 : scalar) (l_log : bool) :
  (val q0 =? val q1) = true ->
  is_finite (val q0) = true ->
  if all_python q0 dD0 q1 dD1
  then calc_mixing (q0, dD0) (q1, dD1) l_log = Raise ZeroDivisionError
  else exists q dD,
    calc_mixing (q0, dD0) (q1, dD1) l_log = Ok (q, dD) /\
    length q = 50%nat /\ length dD = 50%nat /\
    Forall (fun x => nan_or_inf x = true) dD.
Proof.
  intros He Hf.
  pose proof (eqb_finite_sub_zero _ _ He Hf) as Hz.
  destruct (all_python q0 dD0 q1 dD1) eqn:Hp.
  - now apply calc_mixing_python_raises.
  - now apply calc_mixing_numpy_returns.
Qed.

End Code.

Lemma calc_mixing_equal_endpoints_witness :
  ((50 =? 50) = true /\ is_finite 50 = true) /\
  (forall np_exp np_log,
     calc_mixing np_exp np_log (PyFloat 50, PyFloat (-700))
       (PyFloat 50, PyFloat (-150)) true = Raise ZeroDivisionError) /\
  (forall np_exp np_log, exists q dD,
     calc_mixing np_exp np_log (NpFloat64 50, NpFloat64 (-700))
       (NpFloat64 50, NpFloat64 (-150)) true = Ok (q, dD) /\
     length q = 50%nat /\ length dD = 50%nat /\
     Forall (fun x => nan_or_inf x = true) dD).
Proof.
  split; [split; reflexivity|]. split; intros np_exp np_log.
  - apply (calc_mixing_equal_endpoints np_exp np_log
             (PyFloat 50) (PyFloat (-700)) (PyFloat 50) (PyFloat (-150)) true);
      reflexivity.
  - apply (calc_mixing_equal_endpoints np_exp np_log
             (NpFloat64 50) (NpFloat64 (-700)) (NpFloat64 50)
             (NpFloat64 (-150)) true);
      reflexivity.
Defined.

(** C9 as stated fails: on the Python floats of [plot_mixing]'s first default
    pair with the moist mixing ratio set equal to the dry one, the call
    returns no sequences but raises ZeroDivisionError. *)
Lemma calc_mixing_equal_python_floats_raise :
  (50 =? 50) = true /\
  forall np_exp np_log,
    calc_mixing np_exp np_log (PyFloat 50, PyFloat (-700))
      (PyFloat 50, PyFloat (-150)) true = Raise ZeroDivisionError.
Proof.
  split; [reflexivity|]. intros np_exp np_log. reflexivity.
Qed.

(** ** Where the unqualified statements fail in binary64 *)




(** 1e-300 as a binary64 value. *)
Definition lit_1e_minus_300 : float := 0x1.56e1fc2f8f359p-997.

(** C7 as stated fails: for the positive Python float T = 1e-300 the call
    returns no positive value, it raises ZeroDivisionError. *)
Lemma aeq_positive_raises :
  (0 <? lit_1e_minus_300) = true /\
  forall np_exp,
    aeq np_exp (PyFloat lit_1e_minus_300) = Raise ZeroDivisionError.
Proof.
  split; [reflexivity|]. intros np_exp. reflexivity.
Qed.

(** 0.1 and 0.2 as binary64 values. *)
Definition lit_0_1 : float := 0x1.999999999999ap-4.
Definition lit_0_2 : float := 0x1.999999999999ap-3.

Lemma get_dDdeq_freezing_rainless (np_exp : float -> float) (dDv : scalar) :
  get_dDdeq np_exp (PyFloat 0) dDv (PyFloat (-1000)) =
  Ok (NpFloat64
        (val dDv -
         (1 / np_exp (exponent (val (py_add (PyFloat 0) (PyFloat lit_273_15))))
          * 0 - 1000))).
Proof.
  unfold get_dDdeq. rewrite aeq_eval. destruct dDv; reflexivity.
Qed.

(** C6 as stated fails: at T = 0, dDr = -1000, dDv = 0.1 and k = 0.2 both
    sides return, whatever [np.exp] computes, and they are not equal:
    1000.3 against 1000.3000000000001 (or NaN against NaN). *)
Lemma get_dDdeq_affine_fails :
  is_finite (lit_0_1 + lit_0_2) = true /\
  forall np_exp, exists r1 r2,
    get_dDdeq np_exp (PyFloat 0) (py_add (PyFloat lit_0_1) (PyFloat lit_0_2))
      (PyFloat (-1000)) = Ok r1 /\
    bind (get_dDdeq np_exp (PyFloat 0) (PyFloat lit_0_1) (PyFloat (-1000)))
      (fun r => Ok (py_add r (PyFloat lit_0_2))) = Ok r2 /\
    (val r1 =? val r2) = false.
Proof.
  split; [reflexivity|]. intros np_exp.
  rewrite !get_dDdeq_freezing_rainless. cbn [bind].
  eexists _, _. split; [reflexivity|]. split; [reflexivity|].
  cbn [val py_add retag is_python andb].
  destruct (mul_zero_sub_1000
              (1 / np_exp (exponent (val (py_add (PyFloat 0)
                                            (PyFloat lit_273_15))))))
    as [H|H]; cbn [val py_add retag is_python andb] in H; rewrite H;
    reflexivity.
Qed.

(** C4 as stated fails: on the Python floats of [plot_mixing]'s second
    default pair with the moist mixing ratio set equal to the dry one, no
    sequences of length 50 are returned in either mode: the call raises
    ZeroDivisionError. *)
Lemma calc_mixing_no_sequences :
  (1000 =? 1000) = true /\
  forall np_exp np_log l_log,
    calc_mixing np_exp np_log (PyFloat 1000, PyFloat (-450))
      (PyFloat 1000, PyFloat (-120)) l_log = Raise ZeroDivisionError.
Proof.
  split; [reflexivity|]. intros np_exp np_log l_log.
  now apply calc_mixing_python_raises.
Qed.

(** ** Instances of the conditional properties *)

(** A generator that returns a two-sample curve, and raises when the
    starting temperature is [None]. *)
Definition two_samples : curves := ([1; 2], [-80; -90], [], [], []).

Definition generator_or_none (T0 rh0 dD0 f T_g : value) : result curves :=
  match T0 with
  | VNone => Raise IndexError
  | VNum _ => Ok two_samples
  end.

Definition warm : value * value * value :=
  (VNum (PyFloat 30), VNum (PyFloat 90), VNum (PyFloat (-80))).

Definition unset : value * value * value := (VNone, VNone, VNone).

Definition strong : value * value * value * value :=
  (VNum (PyFloat 13), VNum (PyFloat 80), VNum (PyFloat (-175)),
   VNum (PyFloat 1.5)).

Lemma plot_rayleigh_draws_witness :
  (forall rl, In rl ([warm] ++ [warm]) ->
     rayleigh_call generator_or_none rl = Ok two_samples) /\
  plot_rayleigh generator_or_none (Some ([warm] ++ [warm])) (PyFloat 1)
    VNone VNone VNone "dimgray" [] =
  ([] ++ map (fun _ => rayleigh_line (PyFloat 1) "dimgray" two_samples)
        ([warm] ++ [warm]),
   Ok (rayleigh_line (PyFloat 1) "dimgray" two_samples)).
Proof.
  assert (H : forall rl, In rl ([warm] ++ [warm]) ->
            rayleigh_call generator_or_none rl = Ok two_samples).
  { intros rl [<-|[<-|[]]]; reflexivity. }
  split; [exact H|].
  exact (plot_rayleigh_draws generator_or_none (fun _ => two_samples)
           [warm] warm (PyFloat 1) VNone VNone VNone "dimgray" [] H).
Defined.

Lemma plot_rayleigh_propagates_witness :
  ((forall x, In x [warm] ->
      rayleigh_call generator_or_none x = Ok two_samples) /\
   rayleigh_call generator_or_none unset = Raise IndexError) /\
  plot_rayleigh generator_or_none (Some ([warm] ++ unset :: [warm]))
    (PyFloat 1) VNone VNone VNone "dimgray" [] =
  ([] ++ map (fun _ => rayleigh_line (PyFloat 1) "dimgray" two_samples) [warm],
   Raise IndexError).
Proof.
  assert (H : forall x, In x [warm] ->
            rayleigh_call generator_or_none x = Ok two_samples).
  { intros x [<-|[]]. reflexivity. }
  split; [split; [exact H | reflexivity]|].
  exact (plot_rayleigh_propagates generator_or_none (fun _ => two_samples)
           [warm] [warm] unset IndexError (PyFloat 1) VNone VNone VNone
           "dimgray" [] H eq_refl).
Defined.

Lemma plot_superrayleigh_short_lxl_witness :
  (length [1%Z] = length [strong] /\
   forall x, In x [strong] ->
     superrayleigh_call generator_or_none x = Ok two_samples) /\
  plot_superrayleigh generator_or_none (Some ([strong] ++ strong :: []))
    (PyFloat 1) "gray" (Some [1%Z]) [] =
  ([] ++ map (fun p => superrayleigh_line (PyFloat 1) "gray" (snd p)
                         two_samples)
        (combine [strong] [1%Z]),
   Raise IndexError).
Proof.
  assert (H : forall x, In x [strong] ->
            superrayleigh_call generator_or_none x = Ok two_samples).
  { intros x [<-|[]]. reflexivity. }
  split; [split; [reflexivity | exact H]|].
  exact (plot_superrayleigh_short_lxl generator_or_none
           (fun _ => two_samples) [strong] [] strong [1%Z] (PyFloat 1) "gray"
           [] eq_refl H).
Defined.

Definition dry_to_moist : (scalar * scalar) * (scalar * scalar) :=
  ((PyFloat 50, PyFloat (-700)), (PyFloat 15300, PyFloat (-150))).

Definition dry_to_dry : (scalar * scalar) * (scalar * scalar) :=
  ((PyFloat 50, PyFloat (-700)), (PyFloat 50, PyFloat (-150))).

Lemma plot_mixing_draws_witness :
  all_distinct ([dry_to_moist] ++ [dry_to_moist]) = true /\
  forall np_exp np_log, exists new h,
    plot_mixing np_exp np_log (Some ([dry_to_moist] ++ [dry_to_moist]))
      (PyFloat 1) "gray" [] = ([] ++ new, Ok h) /\
    length new = S (length [dry_to_moist]) /\ last new h = h /\
    Forall (mixing_styled (PyFloat 1) "gray") new.
Proof.
  split; [reflexivity|]. intros np_exp np_log.
  exact (plot_mixing_draws np_exp np_log [dry_to_moist] dry_to_moist
           (PyFloat 1) "gray" [] eq_refl).
Defined.

Lemma plot_mixing_degenerate_pair_witness :
  (all_distinct [dry_to_moist] = true /\ degenerate dry_to_dry = true) /\
  forall np_exp np_log, exists new,
    plot_mixing np_exp np_log
      (Some ([dry_to_moist] ++ dry_to_dry :: [dry_to_moist]))
      (PyFloat 1) "gray" [] = ([] ++ new, Raise ZeroDivisionError) /\
    length new = length [dry_to_moist] /\
    Forall (mixing_styled (PyFloat 1) "gray") new.
Proof.
  split; [split; reflexivity|]. intros np_exp np_log.
  exact (plot_mixing_degenerate_pair np_exp np_log [dry_to_moist]
           [dry_to_moist] dry_to_dry (PyFloat 1) "gray" [] eq_refl eq_refl).
Defined.

End Py.
